(** * MineralChainFHE: a shallow embedding of the contract and its properties

    The contract [MineralChainFHE] keeps a ledger of encrypted supply-chain
    disclosures, a table of pending decryption requests, and one encrypted
    counter per mineral type.  This file embeds the contract's storage and
    public functions as executable Rocq definitions and proves the
    properties of the ledger, of the request table and of the counters.

    Conventions.
    - [uint256] values are [N]; Solidity 0.8 checked arithmetic is written
      out ([checked_add], [checked_mul]) and reverts on overflow.
    - A [mapping(K => V)] is a [gmap K V] read with [mload], which gives
      the zero value of [V] at a key never written, as in Solidity.
    - A transaction is a function of the storage that either reverts, which
      leaves the storage as it was, or returns a value, a new storage
      and the events it emitted. *)

From Stdlib Require Import NArith.
From stdpp Require Import gmap strings list fin_maps numbers.

(** ** Keccak-256, the EVM [keccak256] builtin

    The builtin is part of the EVM, not of the repository.  This is the
    Keccak-256 sponge of the Keccak reference (rate 136 bytes, padding
    byte 0x01), on lists of byte values; it is checked against published
    digests in the section on test vectors. *)

Module Keccak.
Local Open Scope N_scope.

Definition mask64 : N := 0xFFFFFFFFFFFFFFFF.

Definition rotl64 (x n : N) : N :=
  N.lor (N.land (N.shiftl x n) mask64) (N.shiftr x (64 - n)).

Definition not64 (x : N) : N := N.lxor x mask64.

Definition round_constants : list N :=
  [ 0x0000000000000001; 0x0000000000008082; 0x800000000000808A;
    0x8000000080008000; 0x000000000000808B; 0x0000000080000001;
    0x8000000080008081; 0x8000000000008009; 0x000000000000008A;
    0x0000000000000088; 0x0000000080008009; 0x000000008000000A;
    0x000000008000808B; 0x800000000000008B; 0x8000000000008089;
    0x8000000000008003; 0x8000000000008002; 0x8000000000000080;
    0x000000000000800A; 0x800000008000000A; 0x8000000080008081;
    0x8000000000008080; 0x0000000080000001; 0x8000000080008008 ].

(** Rotation offsets of the rho step, stored at index [x + 5 * y]. *)
Definition rotation_offsets : list N :=
  [  0;  1; 62; 28; 27;
    36; 44;  6; 55; 20;
     3; 10; 43; 25; 39;
    41; 45; 15; 21;  8;
    18;  2; 61; 56; 14 ].

(** The 1600-bit state is a list of 25 lanes of 64 bits. *)
Definition lane (st : list N) (x y : nat) : N := nth (x + 5 * y)%nat st 0.

Definition coords : list (nat * nat) :=
  y ← seq 0 5; x ← seq 0 5; [(x, y)].

Definition theta (st : list N) : list N :=
  let C x := fold_right (fun y acc => N.lxor (lane st x y) acc) 0 (seq 0 5) in
  let c := map C (seq 0 5) in
  let D x :=
    N.lxor (nth ((x + 4) mod 5)%nat c 0)
           (rotl64 (nth ((x + 1) mod 5)%nat c 0) 1) in
  let d := map D (seq 0 5) in
  map (fun '(x, y) => N.lxor (lane st x y) (nth x d 0)) coords.

(** rho and pi together: the lane written at [(X, Y)] is the rotated lane
    read at [(x, y)] with [X = y] and [Y = 2x + 3y]. *)
Definition rho_pi (st : list N) : list N :=
  map (fun '(X, Y) =>
         let x := ((X + 3 * Y) mod 5)%nat in
         let y := X in
         rotl64 (lane st x y) (nth (x + 5 * y)%nat rotation_offsets 0))
      coords.

Definition chi (st : list N) : list N :=
  map (fun '(x, y) =>
         N.lxor (lane st x y)
                (N.land (not64 (lane st ((x + 1) mod 5)%nat y))
                        (lane st ((x + 2) mod 5)%nat y)))
      coords.

Definition iota (rc : N) (st : list N) : list N :=
  match st with
  | [] => []
  | a :: rest => N.lxor a rc :: rest
  end.

Definition keccak_round (st : list N) (rc : N) : list N :=
  iota rc (chi (rho_pi (theta st))).

Definition keccak_f (st : list N) : list N :=
  fold_left keccak_round round_constants st.

(** Rate of Keccak-256 in bytes: (1600 - 2 * 256) / 8. *)
Definition rate : nat := 136.

Definition xor_byte (st : list N) (pos : nat) (b : N) : list N :=
  let i := (pos / 8)%nat in
  let sh := N.of_nat (8 * (pos mod 8)) in
  match st !! i with
  | Some l => <[i := N.lxor l (N.shiftl b sh)]> st
  | None => st
  end.

Fixpoint absorb (st : list N) (pos : nat) (bs : list N) : list N * nat :=
  match bs with
  | [] => (st, pos)
  | b :: bs' =>
      let st1 := xor_byte st pos b in
      if Nat.eqb (S pos) rate then absorb (keccak_f st1) 0 bs'
      else absorb st1 (S pos) bs'
  end.

Definition lane_bytes (l : N) : list N :=
  map (fun i => N.land (N.shiftr l (N.of_nat (8 * i))) 0xFF) (seq 0 8).

(** A [bytes32] read as a big-endian number, as [uint256(bytes32)] does. *)
Definition be_value (bs : list N) : N :=
  fold_left (fun acc b => acc * 256 + b) bs 0.

Definition string_bytes (s : string) : list N :=
  map Ascii.N_of_ascii (String.list_ascii_of_string s).

(** The sponge with domain byte [pad]: 0x01 is the original Keccak padding
    the EVM uses, 0x06 would be SHA3-256. *)
Definition sponge (pad : N) (msg : list N) : N :=
  let '(st, pos) := absorb (replicate 25 0) 0 msg in
  let st1 := xor_byte (xor_byte st pos pad) (rate - 1) 0x80 in
  let out := keccak_f st1 in
  be_value (take 32 (out ≫= lane_bytes)).

(** [keccak256(abi.encodePacked(s))] for a string [s], as a [bytes32]. *)
Definition keccak256 (s : string) : N := sponge 0x01 (string_bytes s).

End Keccak.

(** ** The encryption library and the decryption oracle *)

Module FHE.
Local Open Scope N_scope.

(** Modelled from the spec: the ciphertext handle type [euint32] of the FHE
    library, which is not part of the repository.  A handle is an opaque
    reference to an encrypted 32-bit value; the zero handle is the
    uninitialized one.  The handle carries the plaintext it encrypts so that
    "the counter holds the encryption of k" can be stated; the contract
    never reads it. *)
Inductive euint32 : Type :=
| Uninitialized
| Encrypted (plaintext : N).

(** Modelled from the spec: [is_initialized(handle)] of the FHE library. *)
Definition isInitialized (h : euint32) : bool :=
  match h with
  | Uninitialized => false
  | Encrypted _ => true
  end.

Definition plaintext_of (h : euint32) : N :=
  match h with
  | Uninitialized => 0
  | Encrypted v => v
  end.

(** Modelled from the spec: [FHE.asEuint32], the trivial encryption of a
    plaintext ([encrypt_zero] is [asEuint32 0]). *)
Definition asEuint32 (v : N) : euint32 := Encrypted (v mod 2 ^ 32).

(** Modelled from the spec: [homomorphic_add] on encrypted 32-bit values. *)
Definition add (a b : euint32) : euint32 :=
  Encrypted ((plaintext_of a + plaintext_of b) mod 2 ^ 32).

(** Modelled from the spec: the payload the oracle sends to a callback.
    The contract only ever reads it through [abi.decode], at one of two
    types, so a payload is given by its two readings; [None] is a byte
    string that does not decode at that type. *)
Record Cleartexts : Type := mkCleartexts {
  as_string_uint256_string : option (string * N * string);
  as_uint32 : option N
}.

(** Modelled from the spec: the oracle's authenticity proof.  A signature
    authenticates exactly one request token with one payload. *)
Inductive OracleProof : Type :=
| Signature (requestId : N) (cleartexts : Cleartexts)
| Forged.

#[global] Instance euint32_eq_dec : EqDecision euint32.
Proof. solve_decision. Defined.

#[global] Instance Cleartexts_eq_dec : EqDecision Cleartexts.
Proof. solve_decision. Defined.

(** Modelled from the spec: [verify(token, payload, proof)] of the oracle's
    verification contract, the check behind [FHE.checkSignatures]. *)
Definition signaturesValid (requestId : N) (cleartexts : Cleartexts)
    (proof : OracleProof) : bool :=
  match proof with
  | Signature r c => bool_decide (r = requestId ∧ c = cleartexts)
  | Forged => false
  end.

(** Modelled from the spec: [request_decryption(handles, callback_tag)];
    the token is chosen by the oracle, so it is an input of the model
    ([oracle_token]). *)
Definition requestDecryption (ciphertexts : list euint32)
    (callback : string) (oracle_token : N) : N := oracle_token.

End FHE.

Export FHE.

Local Open Scope N_scope.

(** ** Transactions *)

Definition MAX_UINT256 : N := 2 ^ 256 - 1.

(** The ways a call can revert: the three [require] and [revert] messages
    of the contract, a failed signature check, a failed [abi.decode], and
    the arithmetic panic of checked [uint256] operations.  The
    specification calls "Invalid request" UnknownRequest. *)
Inductive Error : Type :=
| AlreadyAnalyzed        (* "Already analyzed" *)
| InvalidRequest         (* "Invalid request" *)
| MineralTypeNotFound    (* "Mineral type not found" *)
| InvalidProof           (* FHE.checkSignatures reverts *)
| MalformedPayload       (* abi.decode reverts *)
| ArithmeticOverflow.    (* Panic(0x11) *)

Inductive result (A : Type) : Type :=
| Ok (a : A)
| Revert (e : Error).

Arguments Ok {A} a.
Arguments Revert {A} e.

#[global] Instance result_ret : MRet result := fun A a => Ok a.

#[global] Instance result_bind : MBind result := fun A B f m =>
  match m with
  | Ok a => f a
  | Revert e => Revert e
  end.

Definition checked_add (a b : N) : result N :=
  if a + b <=? MAX_UINT256 then Ok (a + b) else Revert ArithmeticOverflow.

Definition checked_mul (a b : N) : result N :=
  if a * b <=? MAX_UINT256 then Ok (a * b) else Revert ArithmeticOverflow.

(** ** Storage of the contract *)

Record EncryptedSupplyData : Type := mkEncryptedSupplyData {
  id_ : N;
  encryptedMineralType : euint32;
  encryptedQuantity : euint32;
  encryptedOrigin : euint32;
  timestamp : N
}.

Record DecryptedSupplyData : Type := mkDecryptedSupplyData {
  mineralType : string;
  quantity : N;
  origin : string;
  isAnalyzed : bool
}.

Definition emptyDecrypted : DecryptedSupplyData :=
  {| mineralType := ""; quantity := 0; origin := ""; isAnalyzed := false |}.

(** The zero value a storage slot holds before it is written. *)
Class ZeroValue (A : Type) : Type := zero_value : A.

#[global] Instance uint256_zero : ZeroValue N := 0.

#[global] Instance euint32_zero : ZeroValue euint32 := Uninitialized.

#[global] Instance EncryptedSupplyData_zero : ZeroValue EncryptedSupplyData :=
  {| id_ := 0; encryptedMineralType := Uninitialized;
     encryptedQuantity := Uninitialized;
     encryptedOrigin := Uninitialized; timestamp := 0 |}.

#[global] Instance DecryptedSupplyData_zero : ZeroValue DecryptedSupplyData :=
  emptyDecrypted.

(** Reading [m[k]] from a mapping. *)
Definition mload {K : Type} `{Countable K} {V : Type} `{ZeroValue V}
    (m : gmap K V) (k : K) : V :=
  default zero_value (m !! k).

Record Storage : Type := mkStorage {
  dataCount : N;
  encryptedSupplyData : gmap N EncryptedSupplyData;
  decryptedSupplyData : gmap N DecryptedSupplyData;
  encryptedMineralStats : gmap string euint32;
  mineralTypeList : list string;
  requestToDataId : gmap N N
}.

Definition initialStorage : Storage :=
  {| dataCount := 0; encryptedSupplyData := ∅; decryptedSupplyData := ∅;
     encryptedMineralStats := ∅; mineralTypeList := [];
     requestToDataId := ∅ |}.

Definition set_dataCount (v : N) (s : Storage) : Storage :=
  {| dataCount := v;
     encryptedSupplyData := encryptedSupplyData s;
     decryptedSupplyData := decryptedSupplyData s;
     encryptedMineralStats := encryptedMineralStats s;
     mineralTypeList := mineralTypeList s;
     requestToDataId := requestToDataId s |}.

Definition set_encryptedSupplyData (k : N) (v : EncryptedSupplyData)
    (s : Storage) : Storage :=
  {| dataCount := dataCount s;
     encryptedSupplyData := <[k := v]> (encryptedSupplyData s);
     decryptedSupplyData := decryptedSupplyData s;
     encryptedMineralStats := encryptedMineralStats s;
     mineralTypeList := mineralTypeList s;
     requestToDataId := requestToDataId s |}.

Definition set_decryptedSupplyData (k : N) (v : DecryptedSupplyData)
    (s : Storage) : Storage :=
  {| dataCount := dataCount s;
     encryptedSupplyData := encryptedSupplyData s;
     decryptedSupplyData := <[k := v]> (decryptedSupplyData s);
     encryptedMineralStats := encryptedMineralStats s;
     mineralTypeList := mineralTypeList s;
     requestToDataId := requestToDataId s |}.

Definition set_encryptedMineralStats (k : string) (v : euint32)
    (s : Storage) : Storage :=
  {| dataCount := dataCount s;
     encryptedSupplyData := encryptedSupplyData s;
     decryptedSupplyData := decryptedSupplyData s;
     encryptedMineralStats := <[k := v]> (encryptedMineralStats s);
     mineralTypeList := mineralTypeList s;
     requestToDataId := requestToDataId s |}.

Definition push_mineralTypeList (v : string) (s : Storage) : Storage :=
  {| dataCount := dataCount s;
     encryptedSupplyData := encryptedSupplyData s;
     decryptedSupplyData := decryptedSupplyData s;
     encryptedMineralStats := encryptedMineralStats s;
     mineralTypeList := mineralTypeList s ++ [v];
     requestToDataId := requestToDataId s |}.

Definition set_requestToDataId (k v : N) (s : Storage) : Storage :=
  {| dataCount := dataCount s;
     encryptedSupplyData := encryptedSupplyData s;
     decryptedSupplyData := decryptedSupplyData s;
     encryptedMineralStats := encryptedMineralStats s;
     mineralTypeList := mineralTypeList s;
     requestToDataId := <[k := v]> (requestToDataId s) |}.

Inductive Event : Type :=
| DataSubmitted (id : N) (timestamp : N)
| AnalysisRequested (id : N)
| DataAnalyzed (id : N).

(** ** The transaction monad: storage, revert, event log *)

Definition Tx (A : Type) : Type :=
  Storage -> result (A * Storage * list Event).

#[global] Instance Tx_ret : MRet Tx := fun A a s => Ok (a, s, []).

#[global] Instance Tx_bind : MBind Tx := fun A B f m s =>
  match m s with
  | Ok (a, s1, ev1) =>
      match f a s1 with
      | Ok (b, s2, ev2) => Ok (b, s2, ev1 ++ ev2)
      | Revert e => Revert e
      end
  | Revert e => Revert e
  end.

Definition sload {A : Type} (f : Storage -> A) : Tx A :=
  fun s => Ok (f s, s, []).

Definition sstore (f : Storage -> Storage) : Tx unit :=
  fun s => Ok (tt, f s, []).

Definition revert {A : Type} (e : Error) : Tx A := fun _ => Revert e.

Definition require (b : bool) (e : Error) : Tx unit :=
  if b then mret tt else revert e.

Definition emit (ev : Event) : Tx unit := fun s => Ok (tt, s, [ev]).

(** A view function or a pure checked operation called from a
    transaction. *)
Definition call_view {A : Type} (v : Storage -> result A) : Tx A :=
  fun s =>
    match v s with
    | Ok a => Ok (a, s, [])
    | Revert e => Revert e
    end.

Definition lift {A : Type} (r : result A) : Tx A := call_view (fun _ => r).

(** ** The contract's functions *)

Definition keccak256 (packed : string) : N := Keccak.keccak256 packed.
Arguments keccak256 : simpl never.

Definition abi_encodePacked (s : string) : string := s.

(** [FHE.checkSignatures(requestId, cleartexts, proof)]: reverts unless the
    proof authenticates the payload for that token. *)
Definition checkSignatures (requestId : N) (cleartexts : Cleartexts)
    (proof : OracleProof) : Tx unit :=
  require (signaturesValid requestId cleartexts proof) InvalidProof.

(** [abi.decode(cleartexts, (string, uint256, string))]. *)
Definition abi_decode_string_uint256_string (cleartexts : Cleartexts)
    : Tx (string * N * string) :=
  match as_string_uint256_string cleartexts with
  | Some v => mret v
  | None => revert MalformedPayload
  end.

(** [abi.decode(cleartexts, (uint32))]. *)
Definition abi_decode_uint32 (cleartexts : Cleartexts) : Tx N :=
  match as_uint32 cleartexts with
  | Some v => mret v
  | None => revert MalformedPayload
  end.

Definition submitEncryptedSupplyData
    (encryptedMineralType' encryptedQuantity' encryptedOrigin' : euint32)
    (block_timestamp : N) : Tx unit :=
  count ← sload dataCount;
  count' ← lift (checked_add count 1);
  sstore (set_dataCount count');;
  newId ← sload dataCount;
  sstore (set_encryptedSupplyData newId
            {| id_ := newId;
               encryptedMineralType := encryptedMineralType';
               encryptedQuantity := encryptedQuantity';
               encryptedOrigin := encryptedOrigin';
               timestamp := block_timestamp |});;
  sstore (set_decryptedSupplyData newId
            {| mineralType := ""; quantity := 0; origin := "";
               isAnalyzed := false |});;
  emit (DataSubmitted newId block_timestamp).

(** [oracle_token] is the token the oracle assigns to the request, which
    [FHE.requestDecryption] returns as [reqId]. *)
Definition requestSupplyAnalysis (dataId : N) (oracle_token : N) : Tx unit :=
  data ← sload (fun s => mload (encryptedSupplyData s) dataId);
  analyzed ←
    sload (fun s => isAnalyzed (mload (decryptedSupplyData s) dataId));
  require (negb analyzed) AlreadyAnalyzed;;
  let ciphertexts :=
    [encryptedMineralType data; encryptedQuantity data;
     encryptedOrigin data] in
  let reqId :=
    FHE.requestDecryption ciphertexts "analyzeSupplyChain" oracle_token in
  sstore (set_requestToDataId reqId dataId);;
  emit (AnalysisRequested dataId).

Definition analyzeSupplyChain (requestId : N) (cleartexts : Cleartexts)
    (proof : OracleProof) : Tx unit :=
  dataId ← sload (fun s => mload (requestToDataId s) requestId);
  require (negb (dataId =? 0)) InvalidRequest;;
  dData ← sload (fun s => mload (decryptedSupplyData s) dataId);
  require (negb (isAnalyzed dData)) AlreadyAnalyzed;;
  checkSignatures requestId cleartexts proof;;
  '(mineralType', quantity', origin') ←
    abi_decode_string_uint256_string cleartexts;
  sstore (set_decryptedSupplyData dataId
            {| mineralType := mineralType'; quantity := quantity';
               origin := origin'; isAnalyzed := true |});;
  name ← sload (fun s => mineralType (mload (decryptedSupplyData s) dataId));
  stats ← sload (fun s => mload (encryptedMineralStats s) name);
  (if negb (isInitialized stats)
   then sstore (set_encryptedMineralStats name (asEuint32 0));;
        sstore (push_mineralTypeList name)
   else mret tt);;
  stats' ← sload (fun s => mload (encryptedMineralStats s) name);
  sstore (set_encryptedMineralStats name (FHE.add stats' (asEuint32 1)));;
  emit (DataAnalyzed dataId).

Definition getDecryptedSupplyData (dataId : N) (s : Storage)
    : result (string * N * string * bool) :=
  let d := mload (decryptedSupplyData s) dataId in
  Ok (mineralType d, quantity d, origin d, isAnalyzed d).

Definition getEncryptedMineralStats (mineralType' : string) (s : Storage)
    : result euint32 :=
  Ok (mload (encryptedMineralStats s) mineralType').

Definition bytes32ToUint (b : N) : N := b.

Definition requestMineralStatsDecryption (mineralType' : string)
    (oracle_token : N) : Tx unit :=
  stats ← sload (fun s => mload (encryptedMineralStats s) mineralType');
  require (isInitialized stats) MineralTypeNotFound;;
  let ciphertexts := [stats] in
  let reqId :=
    FHE.requestDecryption ciphertexts "decryptMineralStats" oracle_token in
  sstore (set_requestToDataId reqId
            (bytes32ToUint (keccak256 (abi_encodePacked mineralType')))).

(** The loop of [getMineralTypeFromHash] over the part of
    [mineralTypeList] still to visit. *)
Fixpoint scanMineralTypes (rest : list string) (hash : N) : result string :=
  match rest with
  | [] => Revert MineralTypeNotFound
  | name :: rest' =>
      if bytes32ToUint (keccak256 (abi_encodePacked name)) =? hash
      then Ok name
      else scanMineralTypes rest' hash
  end.

Definition getMineralTypeFromHash (hash : N) (s : Storage) : result string :=
  scanMineralTypes (mineralTypeList s) hash.

Definition decryptMineralStats (requestId : N) (cleartexts : Cleartexts)
    (proof : OracleProof) : Tx unit :=
  mineralHash ← sload (fun s => mload (requestToDataId s) requestId);
  mineralType' ← call_view (getMineralTypeFromHash mineralHash);
  checkSignatures requestId cleartexts proof;;
  stats ← abi_decode_uint32 cleartexts;
  mret tt.

(** The inner loop of [calculateSupplyRisk] over the regions still to
    visit: the first region whose hash equals the origin's adds the
    quantity once and leaves the loop. *)
Fixpoint scanHighRiskRegions (rest : list string) (origin' : string)
    (quantity' highRiskQuantity : N) : result N :=
  match rest with
  | [] => Ok highRiskQuantity
  | region :: rest' =>
      if keccak256 (abi_encodePacked origin')
         =? keccak256 (abi_encodePacked region)
      then checked_add highRiskQuantity quantity'
      else scanHighRiskRegions rest' origin' quantity' highRiskQuantity
  end.

(** The indices [1 .. n] a loop [for (i = 1; i <= n; i++)] visits. *)
Definition indicesFromOne (n : N) : list N :=
  map N.of_nat (seq 1 (N.to_nat n)).

(** One iteration of the outer loop of [calculateSupplyRisk], with the
    checked [i++] that ends it. *)
Definition riskStep (s : Storage) (mineralType' : string)
    (highRiskRegions : list string) (acc : N * N) (i : N)
    : result (N * N) :=
  let '(totalQuantity, highRiskQuantity) := acc in
  let d := mload (decryptedSupplyData s) i in
  acc' ←
    (if isAnalyzed d
        && (keccak256 (abi_encodePacked (mineralType d))
            =? keccak256 (abi_encodePacked mineralType'))
     then
       totalQuantity' ← checked_add totalQuantity (quantity d);
       highRiskQuantity' ←
         scanHighRiskRegions highRiskRegions (origin d) (quantity d)
           highRiskQuantity;
       mret (totalQuantity', highRiskQuantity')
     else mret (totalQuantity, highRiskQuantity));
  checked_add i 1;;
  mret acc'.

Fixpoint riskLoop (s : Storage) (mineralType' : string)
    (highRiskRegions : list string) (indices : list N) (acc : N * N)
    : result (N * N) :=
  match indices with
  | [] => Ok acc
  | i :: rest =>
      acc' ← riskStep s mineralType' highRiskRegions acc i;
      riskLoop s mineralType' highRiskRegions rest acc'
  end.

Definition calculateSupplyRisk (mineralType' : string)
    (highRiskRegions : list string) (s : Storage) : result N :=
  '(totalQuantity, highRiskQuantity) ←
    riskLoop s mineralType' highRiskRegions
      (indicesFromOne (dataCount s)) (0, 0);
  if 0 <? totalQuantity
  then scaled ← checked_mul highRiskQuantity 100;
       mret (scaled / totalQuantity)
  else mret 0.

(** ** Calls, execution and reachable states *)

Inductive Call : Type :=
| SubmitEncryptedSupplyData
    (encryptedMineralType' encryptedQuantity' encryptedOrigin' : euint32)
    (block_timestamp : N)
| RequestSupplyAnalysis (dataId : N) (oracle_token : N)
| AnalyzeSupplyChain (requestId : N) (cleartexts : Cleartexts)
    (proof : OracleProof)
| RequestMineralStatsDecryption (mineralType' : string) (oracle_token : N)
| DecryptMineralStats (requestId : N) (cleartexts : Cleartexts)
    (proof : OracleProof).

Definition dispatch (c : Call) : Tx unit :=
  match c with
  | SubmitEncryptedSupplyData m q o t => submitEncryptedSupplyData m q o t
  | RequestSupplyAnalysis dataId tok => requestSupplyAnalysis dataId tok
  | AnalyzeSupplyChain r c p => analyzeSupplyChain r c p
  | RequestMineralStatsDecryption m tok =>
      requestMineralStatsDecryption m tok
  | DecryptMineralStats r c p => decryptMineralStats r c p
  end.

(** The storage after a call: a reverted call leaves it as it was. *)
Definition exec (s : Storage) (c : Call) : Storage :=
  match dispatch c s with
  | Ok (_, s', _) => s'
  | Revert _ => s
  end.

Definition succeeds (s : Storage) (c : Call) : bool :=
  match dispatch c s with
  | Ok _ => true
  | Revert _ => false
  end.

Definition run (s : Storage) (calls : list Call) : Storage :=
  fold_left exec calls s.

Definition reachable (s : Storage) : Prop :=
  ∃ calls, s = run initialStorage calls.

(** ** Vocabulary of the properties *)

(** The fingerprint of a category name, as stored by
    [requestMineralStatsDecryption] and compared by
    [getMineralTypeFromHash]. *)
Definition fingerprint (name : string) : N :=
  bytes32ToUint (keccak256 (abi_encodePacked name)).

(** No two different names of [names] have the same Keccak-256 hash. *)
Definition collision_free (names : list string) : Prop :=
  ∀ a b, a ∈ names → b ∈ names → keccak256 a = keccak256 b → a = b.

Definition collision_freeb (names : list string) : bool :=
  forallb (fun a =>
    forallb (fun b =>
      negb (keccak256 a =? keccak256 b) || bool_decide (a = b)) names)
    names.

(** The storage after the counter update at the end of a successful
    [analyzeSupplyChain] for category [name]. *)
Definition recordMineral (name : string) (s : Storage) : Storage :=
  let s1 :=
    if isInitialized (mload (encryptedMineralStats s) name) then s
    else push_mineralTypeList name
           (set_encryptedMineralStats name (asEuint32 0) s) in
  set_encryptedMineralStats name
    (FHE.add (mload (encryptedMineralStats s1) name) (asEuint32 1)) s1.

(** The storage after a successful [analyzeSupplyChain] that resolves
    [dataId] with the decoded payload. *)
Definition resolvedStorage (dataId : N) (name : string) (q : N)
    (o : string) (s : Storage) : Storage :=
  recordMineral name
    (set_decryptedSupplyData dataId
       {| mineralType := name; quantity := q; origin := o;
          isAnalyzed := true |} s).

(** The storage after a successful [submitEncryptedSupplyData]. *)
Definition submittedStorage (m q o : euint32) (t : N) (s : Storage)
    : Storage :=
  let newId := dataCount s + 1 in
  set_decryptedSupplyData newId emptyDecrypted
    (set_encryptedSupplyData newId
       {| id_ := newId; encryptedMineralType := m; encryptedQuantity := q;
          encryptedOrigin := o; timestamp := t |}
       (set_dataCount newId s)).

(** Running calls one after the other, stopping at the first revert, with
    the events of all of them. *)
Fixpoint execAll (s : Storage) (calls : list Call)
    : result (Storage * list Event) :=
  match calls with
  | [] => Ok (s, [])
  | c :: rest =>
      match dispatch c s with
      | Ok (_, s1, ev1) =>
          match execAll s1 rest with
          | Ok (s2, ev2) => Ok (s2, ev1 ++ ev2)
          | Revert e => Revert e
          end
      | Revert e => Revert e
      end
  end.

(** The ids announced by the [DataSubmitted] events of a log. *)
Definition submittedIds (log : list Event) : list N :=
  omap (fun ev =>
          match ev with
          | DataSubmitted id _ => Some id
          | _ => None
          end) log.

Definition submitCall (input : euint32 * euint32 * euint32 * N) : Call :=
  let '(m, q, o, t) := input in SubmitEncryptedSupplyData m q o t.

(** The category a call resolves when it is executed in [s]: the decoded
    category of a successful [analyzeSupplyChain]. *)
Definition resolvedName (s : Storage) (c : Call) : option string :=
  match c with
  | AnalyzeSupplyChain _ cleartexts _ =>
      if succeeds s c
      then (fun v => v.1.1) <$> as_string_uint256_string cleartexts
      else None
  | _ => None
  end.

(** What a run collects: [f s c] is what the call [c] contributes when it
    is executed in the storage [s]. *)
Fixpoint collect {A : Type} (f : Storage → Call → option A) (s : Storage)
    (calls : list Call) : list A :=
  match calls with
  | [] => []
  | c :: rest =>
      from_option (λ a, [a]) [] (f s c) ++ collect f (exec s c) rest
  end.

(** The categories resolved along a run, one entry per resolution, in the
    order of the calls. *)
Definition resolvedNames (s : Storage) (calls : list Call) : list string :=
  collect resolvedName s calls.

(** The number of resolutions naming [name]. *)
Definition resolutionCount (name : string) (names : list string) : N :=
  N.of_nat (length (filter (fun n => n = name) names)).

(** The names of a list in the order of their first occurrences. *)
Definition keepFirst (acc : list string) (n : string) : list string :=
  if bool_decide (n ∈ acc) then acc else acc ++ [n].

Definition firstOccurrences (names : list string) : list string :=
  fold_left keepFirst names [].

(** The handle a counter holds after [k] resolutions of its category:
    none before the first, then the encryption of [k] as a 32-bit value. *)
Definition counterAfter (k : N) : euint32 :=
  if k =? 0 then Uninitialized else Encrypted (k mod 2 ^ 32).

(** The catalog and the counters agree with the resolutions [names] made
    so far. *)
Definition tallied (s : Storage) (names : list string) : Prop :=
  mineralTypeList s = firstOccurrences names ∧
  ∀ c, mload (encryptedMineralStats s) c
       = counterAfter (resolutionCount c names).






(** A row that is not resolved holds the empty placeholder, at every id. *)
Definition unresolved_rows_empty (s : Storage) : Prop :=
  ∀ id, isAnalyzed (mload (decryptedSupplyData s) id) = false →
        mload (decryptedSupplyData s) id = emptyDecrypted.

(** The revealed rows of the assigned ids, in id order. *)
Definition revealedRows (s : Storage) : list DecryptedSupplyData :=
  map (mload (decryptedSupplyData s)) (indicesFromOne (dataCount s)).

Definition sumQuantities (rows : list DecryptedSupplyData) : N :=
  fold_right (fun d acc => quantity d + acc) 0 rows.

(** The resolved rows of mineral [name], and those of them whose origin
    is one of [regions]. *)
Definition rowsOfMineral (name : string) (rows : list DecryptedSupplyData)
    : list DecryptedSupplyData :=
  filter (fun d => isAnalyzed d = true ∧ mineralType d = name) rows.

Definition rowsAtRisk (regions : list string)
    (rows : list DecryptedSupplyData) : list DecryptedSupplyData :=
  filter (fun d => origin d ∈ regions) rows.

(** The risk score as the specification words it. *)
Definition riskScore (name : string) (regions : list string) (s : Storage)
    : N :=
  let total := sumQuantities (rowsOfMineral name (revealedRows s)) in
  let atRisk :=
    sumQuantities (rowsAtRisk regions (rowsOfMineral name (revealedRows s))) in
  if total =? 0 then 0 else (100 * atRisk) / total.

(** Every name a risk query compares: the queried mineral, the regions,
    and the minerals and origins of the revealed rows. *)
Definition queryNames (name : string) (regions : list string) (s : Storage)
    : list string :=
  name :: regions ++ map mineralType (revealedRows s)
       ++ map origin (revealedRows s).

(** Concrete payloads and runs used as examples. *)
Definition supplyPayload (name : string) (q : N) (o : string) : Cleartexts :=
  {| as_string_uint256_string := Some (name, q, o); as_uint32 := None |}.

Definition countPayload (count : N) : Cleartexts :=
  {| as_string_uint256_string := None; as_uint32 := Some count |}.

Definition resolveCall (token : N) (name : string) (q : N) (o : string)
    : Call :=
  AnalyzeSupplyChain token (supplyPayload name q o)
    (Signature token (supplyPayload name q o)).

(** Submit one record, request its analysis (token 0), fulfill it. *)
Definition oneResolved : list Call :=
  [ SubmitEncryptedSupplyData (Encrypted 2) (Encrypted 20) (Encrypted 8) 1000;
    RequestSupplyAnalysis 1 0;
    resolveCall 0 "Cobalt" 20 "B" ].


(** One disclosure resolved with the quantity [2 ^ 255]. *)
Definition hugeQuantity : list Call :=
  [ SubmitEncryptedSupplyData (Encrypted 2) (Encrypted 20) (Encrypted 8) 1000;
    RequestSupplyAnalysis 1 0;
    resolveCall 0 "Cobalt" (2 ^ 255) "B" ].

(** Two disclosures of the same category, both resolved. *)
Definition twoCobalt : list Call :=
  [ SubmitEncryptedSupplyData (Encrypted 2) (Encrypted 20) (Encrypted 8) 1000;
    SubmitEncryptedSupplyData (Encrypted 2) (Encrypted 5) (Encrypted 9) 1001;
    RequestSupplyAnalysis 1 0;
    RequestSupplyAnalysis 2 1;
    resolveCall 0 "Cobalt" 20 "B";
    resolveCall 1 "Cobalt" 5 "C" ].

(** The end-to-end run: three submissions, resolved as Lithium 10 from A,
    Cobalt 20 from B, Lithium 30 from A. *)
Definition endToEnd : list Call :=
  [ SubmitEncryptedSupplyData (Encrypted 1) (Encrypted 10) (Encrypted 7) 1000;
    SubmitEncryptedSupplyData (Encrypted 2) (Encrypted 20) (Encrypted 8) 1001;
    SubmitEncryptedSupplyData (Encrypted 1) (Encrypted 30) (Encrypted 7) 1002;
    RequestSupplyAnalysis 1 0;
    RequestSupplyAnalysis 2 1;
    RequestSupplyAnalysis 3 2;
    resolveCall 0 "Lithium" 10 "A";
    resolveCall 1 "Cobalt" 20 "B";
    resolveCall 2 "Lithium" 30 "A" ].

(** One iteration of the inner loop of [getCriticalMineralSummary] for the
    catalog entry of index [i], with the checked [j++] that ends it.
    [totalQuantities[i]] is read and written in place; the index is below
    the length of the array at every use. *)
Definition summaryStep (s : Storage) (name : string) (i : nat)
    (totalQuantities : list N) (j : N) : result (list N) :=
  let d := mload (decryptedSupplyData s) j in
  totalQuantities' ←
    (if isAnalyzed d
        && (keccak256 (abi_encodePacked (mineralType d))
            =? keccak256 (abi_encodePacked name))
     then
       total ← checked_add (default 0 (totalQuantities !! i)) (quantity d);
       mret (<[i := total]> totalQuantities)
     else mret totalQuantities);
  checked_add j 1;;
  mret totalQuantities'.

Fixpoint summaryInnerLoop (s : Storage) (name : string) (i : nat)
    (indices : list N) (totalQuantities : list N) : result (list N) :=
  match indices with
  | [] => Ok totalQuantities
  | j :: rest =>
      totalQuantities' ← summaryStep s name i totalQuantities j;
      summaryInnerLoop s name i rest totalQuantities'
  end.

(** The outer loop of [getCriticalMineralSummary] over the part of
    [mineralTypeList] still to visit; [i] is the index of its first
    entry. *)
Fixpoint summaryLoop (s : Storage) (rest : list string) (i : nat)
    (minerals : list string) (totalQuantities : list N)
    : result (list string * list N) :=
  match rest with
  | [] => Ok (minerals, totalQuantities)
  | name :: rest' =>
      let minerals' := <[i := name]> minerals in
      totalQuantities' ←
        summaryInnerLoop s name i (indicesFromOne (dataCount s))
          totalQuantities;
      summaryLoop s rest' (S i) minerals' totalQuantities'
  end.

Definition getCriticalMineralSummary (s : Storage)
    : result (list string * list N) :=
  let minerals := replicate (length (mineralTypeList s)) "" in
  let totalQuantities := replicate (length (mineralTypeList s)) 0 in
  summaryLoop s (mineralTypeList s) 0 minerals totalQuantities.

(** The total quantity of the resolved rows of mineral [name] among the
    assigned ids. *)
Definition mineralTotal (name : string) (s : Storage) : N :=
  sumQuantities (rowsOfMineral name (revealedRows s)).

(** The number of resolved disclosures of category [name] in the ledger:
    the resolved rows of that category among the assigned ids. *)
Definition resolvedRowCount (name : string) (s : Storage) : N :=
  N.of_nat (length (rowsOfMineral name (revealedRows s))).

(** A fulfill that is accepted in [s] targets an id that [s] has already
    assigned. *)
Definition resolvesAssigned (s : Storage) (c : Call) : bool :=
  match c with
  | AnalyzeSupplyChain requestId _ _ =>
      negb (succeeds s c)
      || (mload (requestToDataId s) requestId <=? dataCount s)
  | _ => true
  end.

(** Along the run, every accepted fulfill targets an id assigned before
    it. *)
Fixpoint resolvesAssignedOnly (s : Storage) (calls : list Call) : bool :=
  match calls with
  | [] => true
  | c :: rest => resolvesAssigned s c && resolvesAssignedOnly (exec s c) rest
  end.

(** A row is resolved at id 1 before the id is assigned; the submit that
    assigns id 1 resets the row, and the same token resolves it again. *)
Definition resolvedTwice : list Call :=
  [ RequestSupplyAnalysis 1 0;
    resolveCall 0 "Cobalt" 20 "B";
    SubmitEncryptedSupplyData (Encrypted 2) (Encrypted 5) (Encrypted 9) 1000;
    resolveCall 0 "Cobalt" 5 "C" ].

(** What a call can do to the storage: nothing (a revert, or the aggregate
    callback), or the write of one of the four functions that write. *)
Inductive effect (s : Storage) : Storage → Prop :=
| effect_none : effect s s
| effect_submit m q o t :
    dataCount s + 1 ≤ MAX_UINT256 →
    effect s (submittedStorage m q o t s)
| effect_request dataId token :
    isAnalyzed (mload (decryptedSupplyData s) dataId) = false →
    effect s (set_requestToDataId token dataId s)
| effect_request_stats name token :
    isInitialized (mload (encryptedMineralStats s) name) = true →
    effect s (set_requestToDataId token (fingerprint name) s)
| effect_resolve requestId name q o :
    mload (requestToDataId s) requestId ≠ 0 →
    isAnalyzed
      (mload (decryptedSupplyData s) (mload (requestToDataId s) requestId))
      = false →
    effect s
      (resolvedStorage (mload (requestToDataId s) requestId) name q o s).

(** The events a call emits when it is executed in [s]; a reverted call
    emits none. *)
Definition eventsOf (s : Storage) (c : Call) : list Event :=
  match dispatch c s with
  | Ok (_, _, log) => log
  | Revert _ => []
  end.

(** The event log of a run. *)
Fixpoint runLog (s : Storage) (calls : list Call) : list Event :=
  match calls with
  | [] => []
  | c :: rest => eventsOf s c ++ runLog (exec s c) rest
  end.

(** * Properties *)

(** ** Mappings *)

Section Mapping.
Context {K : Type} `{Countable K} {V : Type} `{ZeroValue V}.
Implicit Types (m : gmap K V) (k : K) (v : V).

Lemma mload_empty k : mload (∅ : gmap K V) k = zero_value.
Proof. unfold mload. by rewrite lookup_empty. Qed.

Lemma mload_insert_eq m k v : mload (<[k := v]> m) k = v.
Proof. unfold mload. by rewrite lookup_insert_eq. Qed.

Lemma mload_insert_ne m k k' v :
  k ≠ k' → mload (<[k := v]> m) k' = mload m k'.
Proof. intros Hne. unfold mload. by rewrite lookup_insert_ne. Qed.

Lemma mload_insert m k k' v :
  mload (<[k := v]> m) k' = if decide (k = k') then v else mload m k'.
Proof.
  case_decide as Hk; [subst; apply mload_insert_eq|].
  by apply mload_insert_ne.
Qed.
End Mapping.

(** ** Keccak-256 test vectors *)

Example keccak256_empty :
  keccak256 "" =
  0xc5d2460186f7233c927e7db2dcc703c0e500b653ca82273b7bfad8045d85a470.
Proof. vm_compute. reflexivity. Qed.

Example keccak256_abc :
  keccak256 "abc" =
  0x4e03657aea45a94fc7d47ba826c8d667c0d1e6e33a64a036ec44f58fa12d6c45.
Proof. vm_compute. reflexivity. Qed.

(** ** The functions as equations *)

(** Closed goals, possibly conjunctions, decided by evaluation. *)
Ltac evaluate :=
  repeat match goal with |- _ ∧ _ => split end;
  vm_compute; reflexivity.

Ltac tx_unfold :=
  unfold mbind, Tx_bind, mret, Tx_ret, sload, sstore, require,
    checkSignatures, abi_decode_string_uint256_string, abi_decode_uint32,
    revert, emit, lift, call_view, mret, Tx_ret, revert;
  simpl.

Lemma submitEncryptedSupplyData_eq m q o t s :
  submitEncryptedSupplyData m q o t s =
  if dataCount s + 1 <=? MAX_UINT256
  then Ok (tt, submittedStorage m q o t s,
           [DataSubmitted (dataCount s + 1) t])
  else Revert ArithmeticOverflow.
Proof.
  unfold submitEncryptedSupplyData, checked_add. tx_unfold.
  destruct (dataCount s + 1 <=? MAX_UINT256); reflexivity.
Qed.

Lemma requestSupplyAnalysis_eq dataId token s :
  requestSupplyAnalysis dataId token s =
  if isAnalyzed (mload (decryptedSupplyData s) dataId)
  then Revert AlreadyAnalyzed
  else Ok (tt, set_requestToDataId token dataId s,
           [AnalysisRequested dataId]).
Proof.
  unfold requestSupplyAnalysis. tx_unfold.
  destruct (isAnalyzed (mload (decryptedSupplyData s) dataId)); reflexivity.
Qed.

Lemma analyzeSupplyChain_eq requestId cleartexts proof s :
  analyzeSupplyChain requestId cleartexts proof s =
  let dataId := mload (requestToDataId s) requestId in
  if dataId =? 0 then Revert InvalidRequest
  else if isAnalyzed (mload (decryptedSupplyData s) dataId)
  then Revert AlreadyAnalyzed
  else if negb (signaturesValid requestId cleartexts proof)
  then Revert InvalidProof
  else match as_string_uint256_string cleartexts with
       | None => Revert MalformedPayload
       | Some (name, q, o) =>
           Ok (tt, resolvedStorage dataId name q o s, [DataAnalyzed dataId])
       end.
Proof.
  unfold analyzeSupplyChain. tx_unfold.
  destruct (mload (requestToDataId s) requestId =? 0); simpl; [done|].
  destruct (isAnalyzed (mload (decryptedSupplyData s) _)); simpl; [done|].
  destruct (signaturesValid requestId cleartexts proof); simpl; [|done].
  destruct (as_string_uint256_string cleartexts) as [[[name q] o]|];
    simpl; [|done].
  unfold resolvedStorage, recordMineral. simpl.
  rewrite !mload_insert_eq. simpl.
  destruct (isInitialized (mload (encryptedMineralStats s) name)); done.
Qed.

Lemma requestMineralStatsDecryption_eq name token s :
  requestMineralStatsDecryption name token s =
  if isInitialized (mload (encryptedMineralStats s) name)
  then Ok (tt, set_requestToDataId token (fingerprint name) s, [])
  else Revert MineralTypeNotFound.
Proof.
  unfold requestMineralStatsDecryption. tx_unfold.
  destruct (isInitialized (mload (encryptedMineralStats s) name)); done.
Qed.

Lemma decryptMineralStats_eq requestId cleartexts proof s :
  decryptMineralStats requestId cleartexts proof s =
  match getMineralTypeFromHash (mload (requestToDataId s) requestId) s with
  | Revert e => Revert e
  | Ok _ =>
      if negb (signaturesValid requestId cleartexts proof)
      then Revert InvalidProof
      else match as_uint32 cleartexts with
           | None => Revert MalformedPayload
           | Some _ => Ok (tt, s, [])
           end
  end.
Proof.
  unfold decryptMineralStats. tx_unfold.
  destruct (getMineralTypeFromHash _ s); simpl; [|done].
  destruct (signaturesValid requestId cleartexts proof); simpl; [|done].
  destruct (as_uint32 cleartexts); done.
Qed.

(** ** Execution and reachable states *)

Lemma run_snoc s calls c : run s (calls ++ [c]) = exec (run s calls) c.
Proof. unfold run. by rewrite fold_left_app. Qed.

Lemma run_cons s c calls : run s (c :: calls) = run (exec s c) calls.
Proof. reflexivity. Qed.

(** A property of the initial storage that every call preserves holds in
    every reachable storage. *)
Lemma reachable_ind (P : Storage → Prop) :
  P initialStorage →
  (∀ s c, P s → P (exec s c)) →
  ∀ s, reachable s → P s.
Proof.
  intros Hinit Hstep s [calls ->].
  induction calls as [|c calls IH] using rev_ind; [exact Hinit|].
  rewrite run_snoc. by apply Hstep.
Qed.

Lemma exec_submit s m q o t :
  exec s (SubmitEncryptedSupplyData m q o t) =
  if dataCount s + 1 <=? MAX_UINT256 then submittedStorage m q o t s else s.
Proof.
  unfold exec, dispatch. rewrite submitEncryptedSupplyData_eq.
  by destruct (dataCount s + 1 <=? MAX_UINT256).
Qed.

Lemma exec_requestSupplyAnalysis s dataId token :
  exec s (RequestSupplyAnalysis dataId token) =
  if isAnalyzed (mload (decryptedSupplyData s) dataId) then s
  else set_requestToDataId token dataId s.
Proof.
  unfold exec, dispatch. rewrite requestSupplyAnalysis_eq.
  by destruct (isAnalyzed _).
Qed.

Lemma exec_requestMineralStatsDecryption s name token :
  exec s (RequestMineralStatsDecryption name token) =
  if isInitialized (mload (encryptedMineralStats s) name)
  then set_requestToDataId token (fingerprint name) s
  else s.
Proof.
  unfold exec, dispatch. rewrite requestMineralStatsDecryption_eq.
  by destruct (isInitialized _).
Qed.

Lemma exec_decryptMineralStats s requestId cleartexts proof :
  exec s (DecryptMineralStats requestId cleartexts proof) = s.
Proof.
  unfold exec, dispatch. rewrite decryptMineralStats_eq.
  destruct (getMineralTypeFromHash _ s); [|done].
  destruct (negb _); [done|]. by destruct (as_uint32 cleartexts).
Qed.

(** A call to [analyzeSupplyChain] either leaves the storage as it was or
    resolves the row its token targets, which was unresolved. *)
Lemma exec_analyzeSupplyChain s requestId cleartexts proof :
  ((∃ e, analyzeSupplyChain requestId cleartexts proof s = Revert e) ∧
   exec s (AnalyzeSupplyChain requestId cleartexts proof) = s) ∨
  ∃ name q o,
    as_string_uint256_string cleartexts = Some (name, q, o) ∧
    mload (requestToDataId s) requestId ≠ 0 ∧
    isAnalyzed
      (mload (decryptedSupplyData s) (mload (requestToDataId s) requestId))
      = false ∧
    analyzeSupplyChain requestId cleartexts proof s =
      Ok (tt,
          resolvedStorage (mload (requestToDataId s) requestId) name q o s,
          [DataAnalyzed (mload (requestToDataId s) requestId)]) ∧
    exec s (AnalyzeSupplyChain requestId cleartexts proof) =
      resolvedStorage (mload (requestToDataId s) requestId) name q o s.
Proof.
  unfold exec, dispatch. rewrite analyzeSupplyChain_eq. simpl.
  destruct (mload (requestToDataId s) requestId =? 0) eqn:E0;
    [left; eauto|].
  destruct (isAnalyzed _) eqn:Ea; [left; eauto|].
  destruct (negb _); [left; eauto|].
  destruct (as_string_uint256_string cleartexts) as [[[name q] o]|];
    [|left; eauto].
  right. exists name, q, o. apply N.eqb_neq in E0. done.
Qed.

(** *** What a resolution writes *)

Lemma recordMineral_frame name s :
  dataCount (recordMineral name s) = dataCount s ∧
  encryptedSupplyData (recordMineral name s) = encryptedSupplyData s ∧
  decryptedSupplyData (recordMineral name s) = decryptedSupplyData s ∧
  requestToDataId (recordMineral name s) = requestToDataId s.
Proof.
  unfold recordMineral.
  by destruct (isInitialized (mload (encryptedMineralStats s) name)).
Qed.

Lemma resolvedStorage_frame dataId name q o s :
  dataCount (resolvedStorage dataId name q o s) = dataCount s ∧
  encryptedSupplyData (resolvedStorage dataId name q o s)
    = encryptedSupplyData s ∧
  requestToDataId (resolvedStorage dataId name q o s) = requestToDataId s.
Proof.
  unfold resolvedStorage.
  destruct (recordMineral_frame name
    (set_decryptedSupplyData dataId
       {| mineralType := name; quantity := q; origin := o;
          isAnalyzed := true |} s)) as (-> & -> & _ & ->).
  done.
Qed.

Lemma resolvedStorage_decrypted dataId name q o s :
  decryptedSupplyData (resolvedStorage dataId name q o s) =
  <[dataId := {| mineralType := name; quantity := q; origin := o;
                 isAnalyzed := true |}]> (decryptedSupplyData s).
Proof.
  unfold resolvedStorage.
  by destruct (recordMineral_frame name
    (set_decryptedSupplyData dataId
       {| mineralType := name; quantity := q; origin := o;
          isAnalyzed := true |} s)) as (_ & _ & -> & _).
Qed.

(** *** Monotonic parts of the storage *)

Lemma dataCount_exec_mono s c : dataCount s ≤ dataCount (exec s c).
Proof.
  destruct c as [m q o t|dataId tok|r ct pf|name tok|r ct pf].
  - rewrite exec_submit. destruct (_ <=? _); simpl; lia.
  - rewrite exec_requestSupplyAnalysis. by destruct (isAnalyzed _).
  - destruct (exec_analyzeSupplyChain s r ct pf)
      as [[_ ->]|(name & q & o & _ & _ & _ & _ & ->)]; [done|].
    by destruct (resolvedStorage_frame
      (mload (requestToDataId s) r) name q o s) as (-> & _).
  - rewrite exec_requestMineralStatsDecryption. by destruct (isInitialized _).
  - by rewrite exec_decryptMineralStats.
Qed.

(** A resolved row of an assigned id is never written again. *)
Lemma resolved_row_stable s c id :
  id ≤ dataCount s →
  isAnalyzed (mload (decryptedSupplyData s) id) = true →
  mload (decryptedSupplyData (exec s c)) id
    = mload (decryptedSupplyData s) id.
Proof.
  intros Hid Hres.
  destruct c as [m q o t|dataId tok|r ct pf|name tok|r ct pf].
  - rewrite exec_submit. destruct (_ <=? _); [|done]. simpl.
    apply mload_insert_ne. lia.
  - rewrite exec_requestSupplyAnalysis.
    by destruct (isAnalyzed (mload (decryptedSupplyData s) dataId)).
  - destruct (exec_analyzeSupplyChain s r ct pf)
      as [[_ ->]|(name & q & o & _ & _ & Hun & _ & ->)]; [done|].
    rewrite resolvedStorage_decrypted. apply mload_insert_ne.
    intros Heq. rewrite Heq in Hun. congruence.
  - rewrite exec_requestMineralStatsDecryption. by destruct (isInitialized _).
  - by rewrite exec_decryptMineralStats.
Qed.

Lemma resolved_row_stable_run calls s id :
  id ≤ dataCount s →
  isAnalyzed (mload (decryptedSupplyData s) id) = true →
  mload (decryptedSupplyData (run s calls)) id
    = mload (decryptedSupplyData s) id.
Proof.
  revert s. induction calls as [|c calls IH]; intros s Hid Hres; [done|].
  rewrite run_cons, IH.
  - by apply resolved_row_stable.
  - pose proof (dataCount_exec_mono s c). lia.
  - by rewrite resolved_row_stable.
Qed.

(** ** Replayed callbacks (C1) *)

(** C1, as stated, fails: after submit, request (token 0) and a successful
    fulfill, the same fulfill is rejected with "Already analyzed", not with
    "Invalid request" (UnknownRequest); token 0 is still registered for
    disclosure 1. *)
Lemma replayed_fulfill_is_not_unknown_request :
  analyzeSupplyChain 0 (supplyPayload "Cobalt" 20 "B")
    (Signature 0 (supplyPayload "Cobalt" 20 "B"))
    (run initialStorage (take 2 oneResolved))
  = Ok (tt, run initialStorage oneResolved, [DataAnalyzed 1]) ∧
  analyzeSupplyChain 0 (supplyPayload "Cobalt" 20 "B")
    (Signature 0 (supplyPayload "Cobalt" 20 "B"))
    (run initialStorage oneResolved)
  = Revert AlreadyAnalyzed ∧
  analyzeSupplyChain 0 (supplyPayload "Cobalt" 20 "B")
    (Signature 0 (supplyPayload "Cobalt" 20 "B"))
    (run initialStorage oneResolved)
  ≠ Revert InvalidRequest ∧
  mload (requestToDataId (run initialStorage oneResolved)) 0 = 1.
Proof.
  split; [vm_compute; reflexivity|].
  split; [vm_compute; reflexivity|].
  split; [vm_compute; discriminate|].
  vm_compute; reflexivity.
Qed.

(** C1 (amended): resolution succeeds once.  After a successful fulfill
    for a token that targets disclosure [dataId], the token is still
    registered for [dataId] and the row is resolved; any second fulfill
    with the same token, whatever its payload and proof, fails with
    AlreadyAnalyzed and leaves the storage, hence the revealed fields of
    [dataId], unchanged.  When [dataId] is an assigned id this stays so
    after any further calls that keep the token registered for it. *)
Theorem replayed_fulfill_is_rejected s requestId cleartexts proof s' log :
  analyzeSupplyChain requestId cleartexts proof s = Ok (tt, s', log) →
  mload (requestToDataId s') requestId = mload (requestToDataId s) requestId ∧
  isAnalyzed
    (mload (decryptedSupplyData s') (mload (requestToDataId s) requestId))
    = true ∧
  (∀ cleartexts' proof',
     analyzeSupplyChain requestId cleartexts' proof' s'
       = Revert AlreadyAnalyzed ∧
     exec s' (AnalyzeSupplyChain requestId cleartexts' proof') = s') ∧
  (∀ calls cleartexts' proof',
     mload (requestToDataId s) requestId ≤ dataCount s →
     mload (requestToDataId (run s' calls)) requestId
       = mload (requestToDataId s) requestId →
     analyzeSupplyChain requestId cleartexts' proof' (run s' calls)
       = Revert AlreadyAnalyzed ∧
     getDecryptedSupplyData (mload (requestToDataId s) requestId)
       (run s' calls)
       = getDecryptedSupplyData (mload (requestToDataId s) requestId) s').
Proof.
  rewrite analyzeSupplyChain_eq. simpl.
  set (dataId := mload (requestToDataId s) requestId).
  destruct (dataId =? 0) eqn:E0; [done|].
  destruct (isAnalyzed (mload (decryptedSupplyData s) dataId)); [done|].
  destruct (negb _); [done|].
  destruct (as_string_uint256_string cleartexts) as [[[name q] o]|]; [|done].
  intros [= <- <-].
  destruct (resolvedStorage_frame dataId name q o s) as (Hcount & _ & Htab).
  assert (Hres : isAnalyzed
    (mload (decryptedSupplyData (resolvedStorage dataId name q o s)) dataId)
    = true).
  { by rewrite resolvedStorage_decrypted, mload_insert_eq. }
  split; [by rewrite Htab|]. split; [exact Hres|].
  assert (Hreject : ∀ st cleartexts' proof',
    mload (requestToDataId st) requestId = dataId →
    isAnalyzed (mload (decryptedSupplyData st) dataId) = true →
    analyzeSupplyChain requestId cleartexts' proof' st
      = Revert AlreadyAnalyzed).
  { intros st ct' pf' Htok Han. rewrite analyzeSupplyChain_eq. simpl.
    by rewrite Htok, E0, Han. }
  split.
  - intros ct' pf'.
    assert (Hrev := Hreject _ ct' pf' (f_equal (λ m, mload m requestId) Htab)
                      Hres).
    split; [exact Hrev|]. unfold exec, dispatch. by rewrite Hrev.
  - intros calls ct' pf' Hassigned Htok.
    assert (Hrow := resolved_row_stable_run calls
      (resolvedStorage dataId name q o s) dataId).
    rewrite Hcount in Hrow. specialize (Hrow Hassigned Hres).
    split.
    + apply Hreject; [exact Htok|]. by rewrite Hrow.
    + unfold getDecryptedSupplyData. by rewrite Hrow.
Qed.

Lemma replayed_fulfill_is_rejected_witness :
  analyzeSupplyChain 0 (supplyPayload "Lithium" 30 "A") Forged
    (run initialStorage oneResolved)
  = Revert AlreadyAnalyzed.
Proof.
  refine (proj1 (proj1 (proj2 (proj2 (replayed_fulfill_is_rejected
           (run initialStorage (take 2 oneResolved)) 0
           (supplyPayload "Cobalt" 20 "B")
           (Signature 0 (supplyPayload "Cobalt" 20 "B"))
           (run initialStorage oneResolved) [DataAnalyzed 1] _)))
           (supplyPayload "Lithium" 30 "A") Forged)).
  vm_compute; reflexivity.
Defined.

(** ** Forged proofs (C2) *)

Lemma scanMineralTypes_revert names hash e :
  scanMineralTypes names hash = Revert e → e = MineralTypeNotFound.
Proof.
  induction names as [|name names IH]; simpl; [congruence|].
  destruct (_ =? hash); [discriminate|exact IH].
Qed.

(** C2, as stated, fails: a fulfill with a forged proof for a token that
    was never registered aborts with "Invalid request" (respectively
    "Mineral type not found"), not with InvalidProof, because the token is
    looked up before the proof is checked. *)
Lemma forged_proof_unknown_token_is_not_invalid_proof :
  signaturesValid 7 (supplyPayload "Cobalt" 20 "B") Forged = false ∧
  analyzeSupplyChain 7 (supplyPayload "Cobalt" 20 "B") Forged initialStorage
    = Revert InvalidRequest ∧
  decryptMineralStats 7 (countPayload 2) Forged initialStorage
    = Revert MineralTypeNotFound.
Proof. evaluate. Qed.

(** C2 (amended): if the authenticity check fails, the fulfill aborts and
    no contract state is mutated, even when the payload would decode.  The
    error is InvalidProof when the checks that precede the signature check
    pass; otherwise it is theirs: for a disclosure fulfill "Invalid
    request" for an unregistered token and "Already analyzed" for a
    resolved target, for an aggregate fulfill "Mineral type not found". *)
Theorem forged_proof_changes_nothing s requestId cleartexts proof :
  signaturesValid requestId cleartexts proof = false →
  analyzeSupplyChain requestId cleartexts proof s =
    Revert
      (if mload (requestToDataId s) requestId =? 0 then InvalidRequest
       else if isAnalyzed
                 (mload (decryptedSupplyData s)
                    (mload (requestToDataId s) requestId))
       then AlreadyAnalyzed
       else InvalidProof) ∧
  exec s (AnalyzeSupplyChain requestId cleartexts proof) = s ∧
  decryptMineralStats requestId cleartexts proof s =
    Revert
      (match getMineralTypeFromHash
               (mload (requestToDataId s) requestId) s with
       | Ok _ => InvalidProof
       | Revert _ => MineralTypeNotFound
       end) ∧
  exec s (DecryptMineralStats requestId cleartexts proof) = s.
Proof.
  intros Hforged.
  assert (Han : analyzeSupplyChain requestId cleartexts proof s =
    Revert
      (if mload (requestToDataId s) requestId =? 0 then InvalidRequest
       else if isAnalyzed
                 (mload (decryptedSupplyData s)
                    (mload (requestToDataId s) requestId))
       then AlreadyAnalyzed
       else InvalidProof)).
  { rewrite analyzeSupplyChain_eq. simpl. rewrite Hforged. simpl.
    destruct (_ =? 0); [done|]. by destruct (isAnalyzed _). }
  split; [exact Han|].
  split; [unfold exec, dispatch; by rewrite Han|].
  split; [|apply exec_decryptMineralStats].
  rewrite decryptMineralStats_eq, Hforged. simpl.
  destruct (getMineralTypeFromHash _ s) as [name|e] eqn:Escan; [done|].
  by rewrite (scanMineralTypes_revert _ _ _ Escan).
Qed.

Lemma forged_proof_changes_nothing_witness :
  analyzeSupplyChain 0 (supplyPayload "Cobalt" 20 "B") Forged
    (run initialStorage (take 2 oneResolved))
  = Revert InvalidProof ∧
  exec (run initialStorage (take 2 oneResolved))
    (AnalyzeSupplyChain 0 (supplyPayload "Cobalt" 20 "B") Forged)
  = run initialStorage (take 2 oneResolved).
Proof.
  destruct (forged_proof_changes_nothing
              (run initialStorage (take 2 oneResolved)) 0
              (supplyPayload "Cobalt" 20 "B") Forged)
    as (Hrevert & Hsame & _); [reflexivity|].
  split; [exact Hrevert|exact Hsame].
Defined.

(** ** Requesting an analysis (C3) *)

(** C3, as stated, fails: in the initial storage no id was ever assigned,
    yet a request for id 5 succeeds and registers token 0 for it. *)
Lemma request_for_unassigned_id_succeeds :
  dataCount initialStorage = 0 ∧
  requestSupplyAnalysis 5 0 initialStorage
    = Ok (tt, set_requestToDataId 0 5 initialStorage,
          [AnalysisRequested 5]) ∧
  mload (requestToDataId (exec initialStorage (RequestSupplyAnalysis 5 0))) 0
    = 5.
Proof. evaluate. Qed.

(** C3 (amended): [requestSupplyAnalysis dataId] succeeds exactly when the
    revealed row stored under [dataId] is not resolved, whether or not
    [dataId] was ever assigned; it then registers its token for [dataId]
    and changes nothing else.  When the row is resolved it fails with
    AlreadyAnalyzed and registers no token. *)
Theorem requestSupplyAnalysis_guard s dataId token :
  requestSupplyAnalysis dataId token s =
    (if isAnalyzed (mload (decryptedSupplyData s) dataId)
     then Revert AlreadyAnalyzed
     else Ok (tt, set_requestToDataId token dataId s,
              [AnalysisRequested dataId])) ∧
  exec s (RequestSupplyAnalysis dataId token) =
    (if isAnalyzed (mload (decryptedSupplyData s) dataId) then s
     else set_requestToDataId token dataId s) ∧
  requestToDataId (exec s (RequestSupplyAnalysis dataId token)) =
    (if isAnalyzed (mload (decryptedSupplyData s) dataId)
     then requestToDataId s
     else <[token := dataId]> (requestToDataId s)).
Proof.
  rewrite requestSupplyAnalysis_eq, exec_requestSupplyAnalysis.
  by destruct (isAnalyzed (mload (decryptedSupplyData s) dataId)).
Qed.

(** ** Fingerprint lookup (C7) *)

Lemma collision_freeb_sound names :
  collision_freeb names = true → collision_free names.
Proof.
  unfold collision_freeb, collision_free. intros Hall a b Ha Hb Heq.
  rewrite forallb_forall in Hall.
  assert (Hrow := Hall a (proj1 (list_elem_of_In _ _) Ha)).
  rewrite forallb_forall in Hrow.
  assert (Hab := Hrow b (proj1 (list_elem_of_In _ _) Hb)).
  apply orb_true_iff in Hab as [Hne|Hsame].
  - apply negb_true_iff, N.eqb_neq in Hne. contradiction.
  - by apply bool_decide_eq_true in Hsame.
Qed.

(** The scan returns the first name with the wanted fingerprint. *)
Lemma scanMineralTypes_found names name :
  name ∈ names →
  ∃ name', name' ∈ names ∧ fingerprint name' = fingerprint name ∧
           scanMineralTypes names (fingerprint name) = Ok name'.
Proof.
  induction names as [|n names IH]; [by intros ?%elem_of_nil|].
  intros Hin. simpl.
  destruct (bytes32ToUint (keccak256 (abi_encodePacked n))
            =? fingerprint name) eqn:E.
  - exists n. apply N.eqb_eq in E. split; [left|done].
  - apply elem_of_cons in Hin as [->|Hin].
    + unfold fingerprint in E. by rewrite N.eqb_refl in E.
    + destruct (IH Hin) as (name' & Hin' & Hfp & Hscan).
      exists name'. split; [by right|done].
Qed.

Lemma scanMineralTypes_absent names hash :
  (∀ name, name ∈ names → fingerprint name ≠ hash) →
  scanMineralTypes names hash = Revert MineralTypeNotFound.
Proof.
  induction names as [|n names IH]; intros Habsent; simpl; [done|].
  destruct (_ =? hash) eqn:E.
  - apply N.eqb_eq in E. destruct (Habsent n); [left|exact E].
  - apply IH. intros name Hin. apply Habsent. by right.
Qed.

(** C7: fingerprint lookup round-trips over the catalog.  For every name
    of the catalog, looking up its fingerprint returns that name, and a
    fingerprint that no cataloged name has is reported as not found.
    Keccak-256 is taken to be collision-free on the names of the catalog. *)
Theorem getMineralTypeFromHash_roundtrip s :
  collision_free (mineralTypeList s) →
  (∀ name, name ∈ mineralTypeList s →
     getMineralTypeFromHash (fingerprint name) s = Ok name) ∧
  (∀ hash, (∀ name, name ∈ mineralTypeList s → fingerprint name ≠ hash) →
     getMineralTypeFromHash hash s = Revert MineralTypeNotFound).
Proof.
  intros Hfree. split.
  - intros name Hin. unfold getMineralTypeFromHash.
    destruct (scanMineralTypes_found _ _ Hin) as (name' & Hin' & Hfp & ->).
    f_equal. by apply Hfree.
  - intros hash Habsent. by apply scanMineralTypes_absent.
Qed.

Lemma getMineralTypeFromHash_roundtrip_witness :
  getMineralTypeFromHash (fingerprint "Cobalt") (run initialStorage endToEnd)
    = Ok "Cobalt" ∧
  getMineralTypeFromHash 5 (run initialStorage endToEnd)
    = Revert MineralTypeNotFound.
Proof.
  destruct (getMineralTypeFromHash_roundtrip (run initialStorage endToEnd))
    as [Hfound Habsent].
  { apply collision_freeb_sound. vm_compute. reflexivity. }
  split.
  - apply Hfound. vm_compute. right. left.
  - apply Habsent. intros name Hin.
    assert (Hcat : mineralTypeList (run initialStorage endToEnd)
                   = ["Lithium"; "Cobalt"]) by (vm_compute; reflexivity).
    rewrite Hcat in Hin.
    apply elem_of_cons in Hin as [->|Hin]; [vm_compute; discriminate|].
    apply elem_of_cons in Hin as [->|Hin]; [vm_compute; discriminate|].
    apply elem_of_nil in Hin. destruct Hin.
Defined.

(** ** Reading a revealed row (C9) *)

Lemma unresolved_rows_empty_reachable s :
  reachable s → unresolved_rows_empty s.
Proof.
  revert s. apply reachable_ind.
  - intros id _. apply mload_empty.
  - intros s c IH id.
    destruct c as [m q o t|dataId tok|r ct pf|name tok|r ct pf].
    + rewrite exec_submit. destruct (_ <=? _); [|apply IH]. simpl.
      rewrite mload_insert. case_decide; [done|apply IH].
    + rewrite exec_requestSupplyAnalysis.
      destruct (isAnalyzed (mload (decryptedSupplyData s) dataId));
        apply IH.
    + destruct (exec_analyzeSupplyChain s r ct pf)
        as [[_ ->]|(name & q & o & _ & _ & _ & _ & ->)]; [apply IH|].
      rewrite resolvedStorage_decrypted, mload_insert.
      case_decide; [done|apply IH].
    + rewrite exec_requestMineralStatsDecryption.
      destruct (isInitialized _); apply IH.
    + rewrite exec_decryptMineralStats. apply IH.
Qed.

(** C9, as stated, fails: after one submit the assigned ids are [1..1];
    the query for id 2, outside that range, returns the same empty row as
    the query for the assigned, unresolved id 1, so nothing tells "not
    found" apart.  An id outside the range can even hold a resolved row. *)
Lemma unassigned_id_has_no_distinct_answer :
  dataCount (run initialStorage (take 1 oneResolved)) = 1 ∧
  getDecryptedSupplyData 1 (run initialStorage (take 1 oneResolved))
    = Ok ("", 0, "", false) ∧
  getDecryptedSupplyData 2 (run initialStorage (take 1 oneResolved))
    = Ok ("", 0, "", false) ∧
  dataCount (run initialStorage
               [RequestSupplyAnalysis 5 0; resolveCall 0 "Cobalt" 20 "B"])
    = 0 ∧
  getDecryptedSupplyData 5
    (run initialStorage
       [RequestSupplyAnalysis 5 0; resolveCall 0 "Cobalt" 20 "B"])
    = Ok ("Cobalt", 20, "B", true).
Proof. evaluate. Qed.

(** C9 (amended): [getDecryptedSupplyData] is read-only and never fails,
    for any id, and it returns the row stored under the id: at every
    reachable state a row that is not resolved is the empty placeholder
    (empty category, quantity 0, empty origin, resolved false), for an
    assigned id and for an id outside the assigned range alike. *)
Theorem getDecryptedSupplyData_total calls dataId :
  call_view (getDecryptedSupplyData dataId) (run initialStorage calls)
    = Ok (mineralType
            (mload (decryptedSupplyData (run initialStorage calls)) dataId),
          quantity
            (mload (decryptedSupplyData (run initialStorage calls)) dataId),
          origin
            (mload (decryptedSupplyData (run initialStorage calls)) dataId),
          isAnalyzed
            (mload (decryptedSupplyData (run initialStorage calls)) dataId),
          run initialStorage calls, []) ∧
  (isAnalyzed
     (mload (decryptedSupplyData (run initialStorage calls)) dataId) = false →
   getDecryptedSupplyData dataId (run initialStorage calls)
     = Ok ("", 0, "", false)).
Proof.
  split; [reflexivity|].
  intros Hun. unfold getDecryptedSupplyData.
  by rewrite (unresolved_rows_empty_reachable _
                (ex_intro _ calls eq_refl) dataId Hun).
Qed.

Lemma getDecryptedSupplyData_total_witness :
  getDecryptedSupplyData 1 (run initialStorage (take 2 oneResolved))
    = Ok ("", 0, "", false).
Proof.
  refine (proj2 (getDecryptedSupplyData_total (take 2 oneResolved) 1) _).
  vm_compute. reflexivity.
Defined.

(** ** The aggregate callback (C10) *)

(** C10: for a token registered for the fingerprint of a cataloged
    category, a valid proof and a payload that decodes as a count,
    [decryptMineralStats] succeeds and leaves the whole storage as it
    was: the count is dropped, no row, counter or catalog entry is
    written, and the token stays registered, so the same fulfill succeeds
    again in the same way.  A call that reverts changes nothing either. *)
Theorem decryptMineralStats_is_a_no_op s requestId cleartexts proof
    name count :
  name ∈ mineralTypeList s →
  mload (requestToDataId s) requestId = fingerprint name →
  signaturesValid requestId cleartexts proof = true →
  as_uint32 cleartexts = Some count →
  decryptMineralStats requestId cleartexts proof s = Ok (tt, s, []) ∧
  exec s (DecryptMineralStats requestId cleartexts proof) = s ∧
  decryptMineralStats requestId cleartexts proof
    (exec s (DecryptMineralStats requestId cleartexts proof))
    = Ok (tt, s, []) ∧
  (∀ requestId' cleartexts' proof',
     exec s (DecryptMineralStats requestId' cleartexts' proof') = s).
Proof.
  intros Hin Htok Hvalid Hdecodes.
  assert (Hok : decryptMineralStats requestId cleartexts proof s
                = Ok (tt, s, [])).
  { rewrite decryptMineralStats_eq, Htok. unfold getMineralTypeFromHash.
    destruct (scanMineralTypes_found _ _ Hin) as (name' & _ & _ & ->).
    by rewrite Hvalid, Hdecodes. }
  rewrite exec_decryptMineralStats.
  repeat split; try exact Hok. intros. apply exec_decryptMineralStats.
Qed.

Lemma decryptMineralStats_is_a_no_op_witness :
  decryptMineralStats 3 (countPayload 2) (Signature 3 (countPayload 2))
    (run initialStorage (endToEnd ++ [RequestMineralStatsDecryption "Lithium" 3]))
  = Ok (tt,
        run initialStorage
          (endToEnd ++ [RequestMineralStatsDecryption "Lithium" 3]),
        []).
Proof.
  refine (proj1 (decryptMineralStats_is_a_no_op
           (run initialStorage
              (endToEnd ++ [RequestMineralStatsDecryption "Lithium" 3]))
           3 (countPayload 2) (Signature 3 (countPayload 2)) "Lithium" 2
           _ _ _ _)).
  - vm_compute. left.
  - vm_compute. reflexivity.
  - vm_compute. reflexivity.
  - reflexivity.
Defined.

(** ** Submitting (C5) *)

Lemma submittedIds_submit id t log :
  submittedIds (DataSubmitted id t :: log) = id :: submittedIds log.
Proof. reflexivity. Qed.

Lemma submit_run inputs : ∀ s0,
  dataCount s0 + N.of_nat (length inputs) ≤ MAX_UINT256 →
  ∃ s log,
    execAll s0 (map submitCall inputs) = Ok (s, log) ∧
    submittedIds log
      = map (fun k => dataCount s0 + N.of_nat k) (seq 1 (length inputs)) ∧
    dataCount s = dataCount s0 + N.of_nat (length inputs) ∧
    (∀ id, id ≤ dataCount s0 →
       mload (encryptedSupplyData s) id = mload (encryptedSupplyData s0) id ∧
       mload (decryptedSupplyData s) id = mload (decryptedSupplyData s0) id) ∧
    (∀ k m q o t, inputs !! k = Some (m, q, o, t) →
       mload (encryptedSupplyData s) (dataCount s0 + N.of_nat (S k))
         = {| id_ := dataCount s0 + N.of_nat (S k);
              encryptedMineralType := m; encryptedQuantity := q;
              encryptedOrigin := o; timestamp := t |} ∧
       mload (decryptedSupplyData s) (dataCount s0 + N.of_nat (S k))
         = emptyDecrypted).
Proof.
  induction inputs as [|[[[m q] o] t] inputs IH]; intros s0 Hroom.
  - exists s0, []. simpl.
    split; [done|]. split; [done|]. split; [lia|]. split; [done|].
    intros k ? ? ? ? Hk. by rewrite lookup_nil in Hk.
  - simpl in Hroom. simpl map. simpl execAll.
    rewrite submitEncryptedSupplyData_eq.
    assert (Hfits : (dataCount s0 + 1 <=? MAX_UINT256) = true).
    { apply N.leb_le. lia. }
    rewrite Hfits.
    destruct (IH (submittedStorage m q o t s0)) as (s & log & -> & Hids & Hcount & Hframe & Hrows).
    { simpl. lia. }
    simpl in Hids, Hcount, Hframe, Hrows.
    exists s, ([DataSubmitted (dataCount s0 + 1) t] ++ log).
    split; [done|]. split; [|split; [|split]].
    + change ([DataSubmitted (dataCount s0 + 1) t] ++ log)
        with (DataSubmitted (dataCount s0 + 1) t :: log).
      rewrite submittedIds_submit, Hids.
      change (seq 1 (length ((m, q, o, t) :: inputs)))
        with (1%nat :: seq 2 (length inputs)).
      rewrite <- (seq_shift (length inputs) 1). cbn [map].
      f_equal. rewrite map_map. apply map_ext. intros k. lia.
    + rewrite Hcount. simpl. lia.
    + intros id Hid. destruct (Hframe id) as [-> ->]; [lia|].
      simpl. rewrite !mload_insert_ne by lia. done.
    + intros [|k] m' q' o' t' Hk; simpl in Hk.
      * injection Hk as <- <- <- <-. change (N.of_nat 1) with 1.
        destruct (Hframe (dataCount s0 + 1)) as [-> ->]; [lia|].
        simpl. by rewrite !mload_insert_eq.
      * destruct (Hrows k m' q' o' t' Hk) as [Henc Hdec].
        replace (dataCount s0 + N.of_nat (S (S k)))
          with (dataCount s0 + 1 + N.of_nat (S k)) by lia.
        done.
Qed.

(** C5: every sequence of [n] submit calls from the initial storage runs
    without a revert, announces the ids [1, 2, ..., n] in call order, and
    leaves under the id of each call the disclosure it submitted and an
    empty unresolved revealed row.  ([n] is below [2 ^ 256], the range of
    the [uint256] counter.) *)
Theorem submit_assigns_consecutive_ids
    (inputs : list (euint32 * euint32 * euint32 * N)) :
  N.of_nat (length inputs) ≤ MAX_UINT256 →
  ∃ s log,
    execAll initialStorage (map submitCall inputs) = Ok (s, log) ∧
    submittedIds log = indicesFromOne (N.of_nat (length inputs)) ∧
    dataCount s = N.of_nat (length inputs) ∧
    (∀ k m q o t, inputs !! k = Some (m, q, o, t) →
       mload (encryptedSupplyData s) (N.of_nat (S k))
         = {| id_ := N.of_nat (S k);
              encryptedMineralType := m; encryptedQuantity := q;
              encryptedOrigin := o; timestamp := t |} ∧
       mload (decryptedSupplyData s) (N.of_nat (S k))
         = {| mineralType := ""; quantity := 0; origin := "";
              isAnalyzed := false |}).
Proof.
  intros Hroom.
  destruct (submit_run inputs initialStorage)
    as (s & log & Hrun & Hids & Hcount & _ & Hrows); [exact Hroom|].
  exists s, log. split; [exact Hrun|]. split; [|split].
  - rewrite Hids. unfold indicesFromOne. by rewrite Nat2N.id.
  - exact Hcount.
  - intros k m q o t Hk. exact (Hrows k m q o t Hk).
Qed.

Lemma submit_assigns_consecutive_ids_witness :
  ∃ s log,
    execAll initialStorage
      (map submitCall
         [ (Encrypted 1, Encrypted 10, Encrypted 7, 1000);
           (Encrypted 2, Encrypted 20, Encrypted 8, 1001);
           (Encrypted 1, Encrypted 30, Encrypted 7, 1002) ])
      = Ok (s, log) ∧
    submittedIds log = [1; 2; 3] ∧ dataCount s = 3.
Proof.
  destruct (submit_assigns_consecutive_ids
              [ (Encrypted 1, Encrypted 10, Encrypted 7, 1000);
                (Encrypted 2, Encrypted 20, Encrypted 8, 1001);
                (Encrypted 1, Encrypted 30, Encrypted 7, 1002) ])
    as (s & log & Hrun & Hids & Hcount & _).
  { vm_compute. discriminate. }
  exists s, log. split; [exact Hrun|]. split; [exact Hids|exact Hcount].
Defined.

(** ** The catalog and the counters (C6) *)

(** *** First occurrences *)

Lemma fold_keepFirst_elem names : ∀ acc x,
  x ∈ fold_left keepFirst names acc ↔ x ∈ acc ∨ x ∈ names.
Proof.
  induction names as [|n names IH]; intros acc x; simpl.
  - rewrite elem_of_nil. tauto.
  - rewrite IH, elem_of_cons. unfold keepFirst.
    case_bool_decide as Hn.
    + split; [tauto|]. intros [?|[->|?]]; tauto.
    + rewrite elem_of_app, list_elem_of_singleton. tauto.
Qed.

Lemma fold_keepFirst_NoDup names : ∀ acc,
  NoDup acc → NoDup (fold_left keepFirst names acc).
Proof.
  induction names as [|n names IH]; intros acc Hacc; simpl; [done|].
  apply IH. unfold keepFirst. case_bool_decide as Hn; [done|].
  apply list.NoDup_app. split; [done|]. split.
  - intros x Hx ->%list_elem_of_singleton. contradiction.
  - apply NoDup_singleton.
Qed.

Lemma firstOccurrences_elem names x :
  x ∈ firstOccurrences names ↔ x ∈ names.
Proof.
  unfold firstOccurrences.
  rewrite fold_keepFirst_elem, elem_of_nil. tauto.
Qed.

Lemma firstOccurrences_NoDup names : NoDup (firstOccurrences names).
Proof. apply (fold_keepFirst_NoDup names []). apply NoDup_nil_2. Qed.

Lemma firstOccurrences_snoc names n :
  firstOccurrences (names ++ [n]) =
  if bool_decide (n ∈ names) then firstOccurrences names
  else firstOccurrences names ++ [n].
Proof.
  unfold firstOccurrences. rewrite fold_left_app. simpl.
  change (fold_left keepFirst names []) with (firstOccurrences names).
  unfold keepFirst.
  case_bool_decide as H1; case_bool_decide as H2; try done;
    rewrite firstOccurrences_elem in H1; contradiction.
Qed.

(** *** Counting resolutions *)

Lemma resolutionCount_snoc c names n :
  resolutionCount c (names ++ [n]) =
  resolutionCount c names + (if decide (n = c) then 1 else 0).
Proof.
  unfold resolutionCount. rewrite list.filter_app, length_app, Nat2N.inj_add.
  f_equal. rewrite list.filter_cons, list.filter_nil. by case_decide.
Qed.

Lemma resolutionCount_pos c names :
  0 < resolutionCount c names ↔ c ∈ names.
Proof.
  unfold resolutionCount. split.
  - intros Hpos.
    destruct (filter (λ n, n = c) names) as [|x rest] eqn:E; [simpl in Hpos; lia|].
    assert (Hx : x ∈ filter (λ n, n = c) names) by (rewrite E; left).
    apply list_elem_of_filter in Hx as [-> Hx]. exact Hx.
  - intros Hin.
    assert (Hc : c ∈ filter (λ n, n = c) names)
      by (apply list_elem_of_filter; done).
    destruct (filter (λ n, n = c) names); [by apply elem_of_nil in Hc|].
    simpl. lia.
Qed.

Lemma counterAfter_initialized k :
  isInitialized (counterAfter k) = negb (k =? 0).
Proof. unfold counterAfter. by destruct (k =? 0). Qed.

Lemma counterAfter_succ k :
  FHE.add (if isInitialized (counterAfter k) then counterAfter k
           else asEuint32 0) (asEuint32 1)
  = counterAfter (k + 1).
Proof.
  unfold counterAfter, FHE.add, asEuint32.
  destruct (k =? 0) eqn:Ek; destruct (k + 1 =? 0) eqn:Ek1;
    try (apply N.eqb_eq in Ek1; lia); simpl; f_equal.
  - apply N.eqb_eq in Ek. subst k. reflexivity.
  - rewrite <- N.Div0.add_mod. reflexivity.
Qed.

(** *** The tally is an invariant *)

Lemma recordMineral_tallied name s names :
  tallied s names → tallied (recordMineral name s) (names ++ [name]).
Proof.
  intros [Hlist Hstats]. unfold recordMineral.
  assert (Hinit := counterAfter_initialized (resolutionCount name names)).
  rewrite <- Hstats in Hinit.
  assert (Hsucc := counterAfter_succ (resolutionCount name names)).
  rewrite <- Hstats in Hsucc.
  assert (Hmem : bool_decide (name ∈ names)
                 = negb (resolutionCount name names =? 0)).
  { case_bool_decide as Hin.
    - apply resolutionCount_pos in Hin. symmetry.
      apply negb_true_iff, N.eqb_neq. lia.
    - symmetry. apply negb_false_iff, N.eqb_eq.
      destruct (N.eq_0_gt_0_cases (resolutionCount name names)) as [?|Hpos];
        [done|].
      by apply resolutionCount_pos in Hpos. }
  split.
  - rewrite firstOccurrences_snoc, Hmem, <- Hinit, <- Hlist.
    by destruct (isInitialized (mload (encryptedMineralStats s) name)).
  - intros c. rewrite resolutionCount_snoc.
    destruct (isInitialized (mload (encryptedMineralStats s) name)) eqn:Ei;
      simpl; rewrite !mload_insert;
      destruct (decide (name = c)) as [<-|Hc];
      rewrite ?decide_True by done;
      rewrite ?N.add_0_r; try apply Hstats; exact Hsucc.
Qed.

Lemma exec_tallied s c names :
  tallied s names →
  tallied (exec s c) (names ++ from_option (λ n, [n]) [] (resolvedName s c)).
Proof.
  intros Hinv.
  destruct c as [m q o t|dataId tok|r ct pf|name tok|r ct pf].
  - simpl. rewrite app_nil_r, exec_submit. by destruct (_ <=? _).
  - simpl. rewrite app_nil_r, exec_requestSupplyAnalysis.
    by destruct (isAnalyzed (mload (decryptedSupplyData s) dataId)).
  - unfold resolvedName, succeeds. simpl dispatch.
    destruct (exec_analyzeSupplyChain s r ct pf)
      as [[[e He] ->]|(name & q & o & Hdec & _ & _ & Hok & ->)].
    + rewrite He. simpl. by rewrite app_nil_r.
    + rewrite Hok, Hdec. simpl. unfold resolvedStorage.
      by apply recordMineral_tallied.
  - simpl. rewrite app_nil_r, exec_requestMineralStatsDecryption.
    by destruct (isInitialized (mload (encryptedMineralStats s) name)).
  - simpl. by rewrite app_nil_r, exec_decryptMineralStats.
Qed.

Lemma resolvedNames_cons s c calls :
  resolvedNames s (c :: calls) =
  from_option (λ n, [n]) [] (resolvedName s c)
    ++ resolvedNames (exec s c) calls.
Proof. reflexivity. Qed.

Lemma run_tallied calls : ∀ s names,
  tallied s names → tallied (run s calls) (names ++ resolvedNames s calls).
Proof.
  induction calls as [|c calls IH]; intros s names Hinv.
  - simpl. by rewrite app_nil_r.
  - rewrite run_cons, resolvedNames_cons, app_assoc.
    by apply IH, exec_tallied.
Qed.

Lemma tallied_initial : tallied initialStorage [].
Proof. split; [done|]. intros c. exact (mload_empty c). Qed.

Lemma reachable_tallied calls :
  tallied (run initialStorage calls) (resolvedNames initialStorage calls).
Proof. apply (run_tallied calls initialStorage []), tallied_initial. Qed.

(** In a reachable storage the catalog lists the initialized counters. *)
Lemma catalog_lists_counters calls name :
  name ∈ mineralTypeList (run initialStorage calls) ↔
  isInitialized
    (mload (encryptedMineralStats (run initialStorage calls)) name) = true.
Proof.
  destruct (reachable_tallied calls) as [-> Hstats].
  rewrite Hstats, counterAfter_initialized, firstOccurrences_elem,
    <- resolutionCount_pos, negb_true_iff, N.eqb_neq. lia.
Qed.

(** The catalog and the counters after any sequence of calls, in terms of
    the accepted fulfills: the catalog is duplicate-free and lists the
    resolved categories in first-resolution order, and the counter of a
    category named by [k] accepted fulfills holds the encryption of [k]. *)
Lemma catalog_and_counters calls :
  NoDup (mineralTypeList (run initialStorage calls)) ∧
  mineralTypeList (run initialStorage calls)
    = firstOccurrences (resolvedNames initialStorage calls) ∧
  (∀ c,
     (c ∈ mineralTypeList (run initialStorage calls) ↔
      0 < resolutionCount c (resolvedNames initialStorage calls)) ∧
     (resolutionCount c (resolvedNames initialStorage calls) = 0 →
      getEncryptedMineralStats c (run initialStorage calls)
        = Ok Uninitialized) ∧
     (0 < resolutionCount c (resolvedNames initialStorage calls) < 2 ^ 32 →
      getEncryptedMineralStats c (run initialStorage calls)
        = Ok (Encrypted
                (resolutionCount c (resolvedNames initialStorage calls))))) ∧
  (∀ dataId c q o,
     mineralTypeList (resolvedStorage dataId c q o (run initialStorage calls))
       = (if bool_decide (c ∈ mineralTypeList (run initialStorage calls))
          then mineralTypeList (run initialStorage calls)
          else mineralTypeList (run initialStorage calls) ++ [c]) ∧
     mload (encryptedMineralStats
              (resolvedStorage dataId c q o (run initialStorage calls))) c
       = FHE.add
           (if bool_decide (c ∈ mineralTypeList (run initialStorage calls))
            then mload (encryptedMineralStats (run initialStorage calls)) c
            else asEuint32 0)
           (asEuint32 1)).
Proof.
  destruct (reachable_tallied calls) as [Hlist Hstats].
  split; [rewrite Hlist; apply firstOccurrences_NoDup|].
  split; [exact Hlist|]. split.
  - intros c. unfold getEncryptedMineralStats. rewrite Hstats.
    split; [by rewrite Hlist, firstOccurrences_elem, resolutionCount_pos|].
    unfold counterAfter. split.
    + by intros ->.
    + intros [Hpos Hlt].
      destruct (_ =? 0) eqn:E; [apply N.eqb_eq in E; lia|].
      by rewrite N.mod_small.
  - intros dataId c q o.
    assert (Hcat : bool_decide (c ∈ mineralTypeList (run initialStorage calls))
                   = isInitialized
                       (mload (encryptedMineralStats
                                 (run initialStorage calls)) c)).
    { pose proof (catalog_lists_counters calls c) as Hiff.
      destruct (isInitialized _); case_bool_decide; try done.
      - exfalso. tauto.
      - destruct Hiff as [Hiff _]. by specialize (Hiff ltac:(done)). }
    rewrite Hcat. unfold resolvedStorage, recordMineral. simpl.
    destruct (isInitialized _); simpl; by rewrite !mload_insert_eq.
Qed.

(** A successful category request at a reachable storage registers its
    token for the fingerprint of a cataloged category, which is what the
    aggregate callback needs of its token. *)
Lemma requestMineralStatsDecryption_registers calls name token s1 log :
  requestMineralStatsDecryption name token (run initialStorage calls)
    = Ok (tt, s1, log) →
  name ∈ mineralTypeList s1 ∧
  mload (requestToDataId s1) token = fingerprint name.
Proof.
  rewrite requestMineralStatsDecryption_eq.
  destruct (isInitialized _) eqn:Einit; [|done].
  intros [= <- <-]. simpl. split; [|apply mload_insert_eq].
  by apply catalog_lists_counters.
Qed.

(** ** The targets of the request table (C4) *)



Lemma succeeds_requestMineralStatsDecryption s name token :
  succeeds s (RequestMineralStatsDecryption name token)
  = isInitialized (mload (encryptedMineralStats s) name).
Proof.
  unfold succeeds, dispatch. rewrite requestMineralStatsDecryption_eq.
  by destruct (isInitialized _).
Qed.






(** ** The risk query (C8) *)

Lemma checked_add_fits a b :
  a + b ≤ MAX_UINT256 → checked_add a b = Ok (a + b).
Proof. intros Hfits. unfold checked_add. by apply N.leb_le in Hfits as ->. Qed.

Lemma checked_mul_fits a b :
  a * b ≤ MAX_UINT256 → checked_mul a b = Ok (a * b).
Proof. intros Hfits. unfold checked_mul. by apply N.leb_le in Hfits as ->. Qed.

Lemma indicesFromOne_elem n i : i ∈ indicesFromOne n → 1 ≤ i ≤ n.
Proof.
  unfold indicesFromOne. intros (k & -> & Hk)%list_elem_of_fmap.
  apply elem_of_seq in Hk. lia.
Qed.

Lemma scanHighRiskRegions_spec regions origin' q hr :
  (∀ r, r ∈ regions → keccak256 origin' = keccak256 r → origin' = r) →
  scanHighRiskRegions regions origin' q hr =
  if bool_decide (origin' ∈ regions) then checked_add hr q else Ok hr.
Proof.
  induction regions as [|r regions IH]; intros Hfree;
    cbn [scanHighRiskRegions].
  - by rewrite bool_decide_eq_false_2 by apply not_elem_of_nil.
  - unfold abi_encodePacked in *.
    destruct (keccak256 origin' =? keccak256 r) eqn:E.
    + apply N.eqb_eq in E. rewrite (Hfree r) by (done || left).
      by rewrite bool_decide_eq_true_2 by left.
    + rewrite IH by (intros; apply Hfree; [by right|done]).
      assert (origin' ≠ r) by (intros ->; by rewrite N.eqb_refl in E).
      rewrite (bool_decide_ext (origin' ∈ r :: regions) (origin' ∈ regions));
        [done|].
      rewrite elem_of_cons. tauto.
Qed.

(** Linear arithmetic with the sums taken as unknowns. *)
Ltac sums_lia :=
  repeat match goal with
         | H : context [sumQuantities ?l] |- _ =>
             generalize dependent (sumQuantities l); intros
         | |- context [sumQuantities ?l] =>
             generalize (sumQuantities l); intros
         end;
  lia.

Lemma sumQuantities_cons d rows :
  sumQuantities (d :: rows) = quantity d + sumQuantities rows.
Proof. reflexivity. Qed.

Lemma riskLoop_spec s name regions : ∀ ids totalQuantity highRiskQuantity,
  (∀ i, i ∈ ids → i + 1 ≤ MAX_UINT256) →
  (∀ d, d ∈ map (mload (decryptedSupplyData s)) ids →
        keccak256 (mineralType d) = keccak256 name → mineralType d = name) →
  (∀ d r, d ∈ map (mload (decryptedSupplyData s)) ids → r ∈ regions →
          keccak256 (origin d) = keccak256 r → origin d = r) →
  totalQuantity
    + sumQuantities
        (rowsOfMineral name (map (mload (decryptedSupplyData s)) ids))
    ≤ MAX_UINT256 →
  highRiskQuantity
    + sumQuantities
        (rowsAtRisk regions
           (rowsOfMineral name (map (mload (decryptedSupplyData s)) ids)))
    ≤ MAX_UINT256 →
  riskLoop s name regions ids (totalQuantity, highRiskQuantity) =
  Ok (totalQuantity
        + sumQuantities
            (rowsOfMineral name (map (mload (decryptedSupplyData s)) ids)),
      highRiskQuantity
        + sumQuantities
            (rowsAtRisk regions
               (rowsOfMineral name
                  (map (mload (decryptedSupplyData s)) ids)))).
Proof.
  induction ids as [|i ids IH];
    intros tot hr Hidx Hmineral Horigin Htot Hhr.
  - simpl. unfold rowsOfMineral, rowsAtRisk. simpl.
    by rewrite !N.add_0_r.
  - simpl map in *. simpl riskLoop. unfold riskStep.
    remember (mload (decryptedSupplyData s) i) as d eqn:Hd. clear Hd.
    remember (map (mload (decryptedSupplyData s)) ids) as rows eqn:Hrows.
    assert (Hi : checked_add i 1 = Ok (i + 1)).
    { apply checked_add_fits, Hidx. left. }
    assert (Hscan := scanHighRiskRegions_spec regions (origin d) (quantity d)
                       hr (λ r Hr, Horigin d r ltac:(left) Hr)).
    unfold abi_encodePacked.
    unfold rowsOfMineral, rowsAtRisk in *.
    destruct (decide (isAnalyzed d = true ∧ mineralType d = name))
      as [[Han Hname]|Hno].
    + rewrite (filter_cons_True _ d rows) in * by done.
      rewrite Han, Hname, N.eqb_refl. simpl andb. cbv iota.
      rewrite sumQuantities_cons in Htot.
      unfold mbind, result_bind, mret, result_ret.
      rewrite (checked_add_fits tot (quantity d)) by sums_lia.
      rewrite Hscan.
      destruct (decide (origin d ∈ regions)) as [Hin|Hout].
      * rewrite (filter_cons_True _ d) in * by done.
        rewrite !sumQuantities_cons in *.
        rewrite bool_decide_eq_true_2 by done.
        rewrite (checked_add_fits hr (quantity d)) by sums_lia.
        rewrite Hi.
        rewrite IH.
        -- by rewrite ?sumQuantities_cons, !N.add_assoc.
        -- intros; apply Hidx; by right.
        -- intros; apply Hmineral; [by right|done].
        -- intros; eapply Horigin; [by right|done..].
        -- sums_lia.
        -- sums_lia.
      * rewrite (filter_cons_False _ d) in * by done.
        rewrite bool_decide_eq_false_2 by done. rewrite Hi.
        rewrite IH.
        -- by rewrite ?sumQuantities_cons, !N.add_assoc.
        -- intros; apply Hidx; by right.
        -- intros; apply Hmineral; [by right|done].
        -- intros; eapply Horigin; [by right|done..].
        -- sums_lia.
        -- sums_lia.
    + rewrite (filter_cons_False _ d rows) in * by done.
      assert (Hskip : isAnalyzed d
                      && (keccak256 (mineralType d) =? keccak256 name)
                      = false).
      { destruct (isAnalyzed d) eqn:Han; [|done]. simpl.
        apply N.eqb_neq. intros Heq. apply Hno. split; [done|].
        apply Hmineral; [left|done]. }
      rewrite Hskip. unfold mbind, result_bind, mret, result_ret.
      rewrite Hi.
      apply IH.
      * intros; apply Hidx; by right.
      * intros; apply Hmineral; [by right|done].
      * intros; eapply Horigin; [by right|done..].
      * done.
      * done.
Qed.

(** The loops of [calculateSupplyRisk] compute the specified score as long
    as no checked operation overflows. *)
Lemma calculateSupplyRisk_spec s name regions :
  collision_free (queryNames name regions s) →
  dataCount s < MAX_UINT256 →
  sumQuantities (rowsOfMineral name (revealedRows s)) ≤ MAX_UINT256 →
  100 * sumQuantities
          (rowsAtRisk regions (rowsOfMineral name (revealedRows s)))
    ≤ MAX_UINT256 →
  calculateSupplyRisk name regions s = Ok (riskScore name regions s).
Proof.
  intros Hfree Hcount Htot Hrisk.
  unfold calculateSupplyRisk, riskScore.
  rewrite riskLoop_spec.
  - rewrite !N.add_0_l. fold (revealedRows s).
    unfold mbind, result_bind, mret, result_ret.
    destruct (N.eq_0_gt_0_cases
                (sumQuantities (rowsOfMineral name (revealedRows s))))
      as [Hzero|Hpos].
    + by rewrite Hzero.
    + rewrite (proj2 (N.ltb_lt _ _) Hpos).
      rewrite (proj2 (N.eqb_neq _ _)) by sums_lia.
      rewrite checked_mul_fits by (rewrite N.mul_comm; exact Hrisk).
      by rewrite N.mul_comm.
  - intros i Hi%indicesFromOne_elem. lia.
  - intros d Hd Hhash. apply Hfree; [|by left|done].
    right. apply elem_of_app. right. apply elem_of_app. left.
    by apply list_elem_of_fmap_2.
  - intros d r Hd Hr Hhash. apply Hfree; [| |done].
    + right. apply elem_of_app. right. apply elem_of_app. right.
      by apply list_elem_of_fmap_2.
    + right. apply elem_of_app. by left.
  - fold (revealedRows s). sums_lia.
  - fold (revealedRows s). sums_lia.
Qed.

(** C8, as stated, fails: with one disclosure of "Cobalt" resolved with
    quantity [2 ^ 255] and origin "B", the specified score for "Cobalt"
    with high-risk set {"B"} is 100, but the query reverts:
    [highRiskQuantity * 100] overflows [uint256]. *)
Lemma calculateSupplyRisk_overflows :
  getDecryptedSupplyData 1 (run initialStorage hugeQuantity)
    = Ok ("Cobalt", 2 ^ 255, "B", true) ∧
  riskScore "Cobalt" ["B"] (run initialStorage hugeQuantity) = 100 ∧
  calculateSupplyRisk "Cobalt" ["B"] (run initialStorage hugeQuantity)
    = Revert ArithmeticOverflow.
Proof. evaluate. Qed.

(** * Further properties of the contract *)

(** ** The mineral summary *)

(** *** The inner loop *)

Lemma summaryInnerLoop_spec s name i : ∀ ids totalQuantities total,
  totalQuantities !! i = Some total →
  (∀ j, j ∈ ids → j + 1 ≤ MAX_UINT256) →
  (∀ d, d ∈ map (mload (decryptedSupplyData s)) ids →
        keccak256 (mineralType d) = keccak256 name → mineralType d = name) →
  total
    + sumQuantities
        (rowsOfMineral name (map (mload (decryptedSupplyData s)) ids))
    ≤ MAX_UINT256 →
  summaryInnerLoop s name i ids totalQuantities =
  Ok (<[i := total
              + sumQuantities
                  (rowsOfMineral name
                     (map (mload (decryptedSupplyData s)) ids))]>
        totalQuantities).
Proof.
  induction ids as [|j ids IH]; intros totals total Hi Hidx Hmineral Hfits.
  - simpl. unfold rowsOfMineral. simpl. rewrite N.add_0_r.
    by rewrite list_insert_id.
  - simpl map in *. simpl summaryInnerLoop. unfold summaryStep.
    remember (mload (decryptedSupplyData s) j) as d eqn:Hd. clear Hd.
    remember (map (mload (decryptedSupplyData s)) ids) as rows eqn:Hrows.
    assert (Hj : checked_add j 1 = Ok (j + 1)).
    { apply checked_add_fits, Hidx. left. }
    unfold abi_encodePacked, rowsOfMineral in *.
    unfold mbind, result_bind, mret, result_ret.
    destruct (decide (isAnalyzed d = true ∧ mineralType d = name))
      as [[Han Hname]|Hno].
    + rewrite (filter_cons_True _ d rows) in * by done.
      rewrite sumQuantities_cons in *.
      rewrite Han, Hname, N.eqb_refl, Hi. simpl.
      rewrite (checked_add_fits total (quantity d)) by sums_lia.
      rewrite Hj.
      rewrite (IH _ (total + quantity d)).
      * by rewrite list_insert_insert_eq, N.add_assoc.
      * apply list_lookup_insert_eq. by eapply lookup_lt_Some.
      * intros; apply Hidx; by right.
      * intros; apply Hmineral; [by right|done].
      * sums_lia.
    + rewrite (filter_cons_False _ d rows) in * by done.
      assert (Hskip : isAnalyzed d
                      && (keccak256 (mineralType d) =? keccak256 name)
                      = false).
      { destruct (isAnalyzed d) eqn:Han; [|done]. simpl.
        apply N.eqb_neq. intros Heq. apply Hno. split; [done|].
        apply Hmineral; [left|done]. }
      rewrite Hskip, Hj. apply IH; try done.
      * intros; apply Hidx; by right.
      * intros; apply Hmineral; [by right|done].
Qed.

(** The loops keep the length of the arrays, and revert only on
    arithmetic overflow. *)
Lemma summaryInnerLoop_shape s name i : ∀ ids totalQuantities,
  match summaryInnerLoop s name i ids totalQuantities with
  | Ok totals' => length totals' = length totalQuantities
  | Revert e => e = ArithmeticOverflow
  end.
Proof.
  induction ids as [|j ids IH]; intros totals; simpl; [done|].
  unfold summaryStep, checked_add, mbind, result_bind, mret, result_ret.
  destruct (isAnalyzed _ && _).
  - destruct (_ <=? MAX_UINT256); [|done].
    destruct (j + 1 <=? MAX_UINT256); [|done].
    specialize (IH (<[i:=default 0 (totals !! i)
                        + quantity (mload (decryptedSupplyData s) j)]>
                      totals)).
    destruct (summaryInnerLoop _ _ _ _ _); [|done].
    by rewrite IH, length_insert.
  - destruct (j + 1 <=? MAX_UINT256); [|done]. apply IH.
Qed.

Lemma summaryLoop_shape s : ∀ rest i minerals totalQuantities,
  match summaryLoop s rest i minerals totalQuantities with
  | Ok (minerals', totals') =>
      length totals' = length totalQuantities ∧
      length minerals' = length minerals ∧
      (∀ k, (k < i)%nat → minerals' !! k = minerals !! k) ∧
      (∀ k name, rest !! k = Some name →
                 (i + k < length minerals)%nat →
                 minerals' !! (i + k)%nat = Some name)
  | Revert e => e = ArithmeticOverflow
  end.
Proof.
  induction rest as [|name rest IH]; intros i minerals totals; simpl.
  - repeat split; done.
  - unfold mbind, result_bind.
    pose proof (summaryInnerLoop_shape s name i
                  (indicesFromOne (dataCount s)) totals) as Hinner.
    destruct (summaryInnerLoop _ _ _ _ _) as [totals1|e]; [|done].
    specialize (IH (S i) (<[i:=name]> minerals) totals1).
    destruct (summaryLoop _ _ _ _ _) as [[minerals' totals']|e]; [|done].
    destruct IH as (Hlen & Hlenm & Hbefore & Hafter).
    rewrite length_insert in Hlenm, Hafter.
    split; [congruence|]. split; [done|]. split.
    + intros k Hk. rewrite Hbefore by lia.
      apply list_lookup_insert_ne. lia.
    + intros [|k] name' Hk Hrange; simpl in Hk.
      * injection Hk as <-. rewrite Nat.add_0_r in *.
        rewrite Hbefore by lia. by apply list_lookup_insert_eq.
      * replace (i + S k)%nat with (S i + k)%nat by lia.
        apply Hafter; [done|lia].
Qed.

Lemma summaryLoop_totals s : ∀ rest done minerals,
  dataCount s < MAX_UINT256 →
  (∀ name d, name ∈ rest → d ∈ revealedRows s →
             keccak256 (mineralType d) = keccak256 name →
             mineralType d = name) →
  (∀ name, name ∈ rest → mineralTotal name s ≤ MAX_UINT256) →
  ∃ minerals',
    summaryLoop s rest (length done) minerals
      (map (λ name, mineralTotal name s) done ++ replicate (length rest) 0)
    = Ok (minerals', map (λ name, mineralTotal name s) (done ++ rest)).
Proof.
  induction rest as [|name rest IH];
    intros done minerals Hcount Hfree Hfits.
  - exists minerals. simpl. by rewrite !app_nil_r.
  - simpl summaryLoop. unfold mbind, result_bind.
    rewrite (summaryInnerLoop_spec s name (length done) _ _ 0).
    + rewrite N.add_0_l. fold (revealedRows s). fold (mineralTotal name s).
      destruct (IH (done ++ [name]) (<[length done:=name]> minerals))
        as [minerals' Hloop]; [done| | |].
      * intros; apply Hfree; [by right|done..].
      * intros; apply Hfits; by right.
      * exists minerals'. rewrite length_app, Nat.add_1_r in Hloop.
        rewrite insert_app_r_alt by (by rewrite length_map).
        rewrite length_map, Nat.sub_diag. simpl.
        rewrite map_app, <- app_assoc in Hloop. simpl in Hloop.
        rewrite Hloop. by rewrite <- app_assoc.
    + rewrite lookup_app_r by (by rewrite length_map).
      by rewrite length_map, Nat.sub_diag.
    + intros j Hj%indicesFromOne_elem. lia.
    + intros d Hd Hhash. apply Hfree; [left|done..].
    + rewrite N.add_0_l. apply (Hfits name). left.
Qed.

(** When the summary returns, its first array is the catalog and its
    second has one entry per catalog entry. *)
Lemma getCriticalMineralSummary_lists_catalog s minerals totalQuantities :
  getCriticalMineralSummary s = Ok (minerals, totalQuantities) →
  minerals = mineralTypeList s ∧
  length totalQuantities = length (mineralTypeList s).
Proof.
  unfold getCriticalMineralSummary. intros Hrun.
  pose proof (summaryLoop_shape s (mineralTypeList s) 0
                (replicate (length (mineralTypeList s)) "")
                (replicate (length (mineralTypeList s)) 0)) as Hshape.
  rewrite Hrun in Hshape.
  destruct Hshape as (Hlen & Hlenm & _ & Hafter).
  rewrite length_replicate in Hlen. rewrite length_replicate in Hlenm.
  rewrite length_replicate in Hafter. split; [|done].
  apply list_eq. intros k.
  destruct (mineralTypeList s !! k) as [name|] eqn:Hk.
  - apply (Hafter k name Hk). by eapply lookup_lt_Some.
  - apply lookup_ge_None. apply lookup_ge_None in Hk. lia.
Qed.

(** X2: The summary lists the catalog, with one total per entry, and fails only
    by arithmetic overflow; with an empty catalog it returns two empty
    arrays, whatever the ledger holds. *)
Theorem getCriticalMineralSummary_shape s :
  (∀ minerals totalQuantities,
     getCriticalMineralSummary s = Ok (minerals, totalQuantities) →
     minerals = mineralTypeList s ∧
     length totalQuantities = length (mineralTypeList s)) ∧
  (∀ e, getCriticalMineralSummary s = Revert e → e = ArithmeticOverflow) ∧
  (mineralTypeList s = [] → getCriticalMineralSummary s = Ok ([], [])).
Proof.
  split; [apply getCriticalMineralSummary_lists_catalog|]. split.
  - unfold getCriticalMineralSummary. intros e Hrun.
    pose proof (summaryLoop_shape s (mineralTypeList s) 0
                  (replicate (length (mineralTypeList s)) "")
                  (replicate (length (mineralTypeList s)) 0)) as Hshape.
    by rewrite Hrun in Hshape.
  - unfold getCriticalMineralSummary. by intros ->.
Qed.

Lemma getCriticalMineralSummary_shape_witness :
  getCriticalMineralSummary
    (run initialStorage [RequestSupplyAnalysis 5 0]) = Ok ([], []).
Proof.
  refine (proj2 (proj2 (getCriticalMineralSummary_shape
                          (run initialStorage [RequestSupplyAnalysis 5 0])))
            _).
  vm_compute. reflexivity.
Defined.

(** X1: The summary gives, for each catalog entry in catalog order, the sum of
    the quantities of the resolved rows of that mineral among the assigned
    ids, as long as no checked operation overflows.  Names are compared
    through Keccak-256, taken to be collision-free on the names
    compared. *)
Theorem getCriticalMineralSummary_totals s :
  collision_free (mineralTypeList s ++ map mineralType (revealedRows s)) →
  dataCount s < MAX_UINT256 →
  (∀ name, name ∈ mineralTypeList s → mineralTotal name s ≤ MAX_UINT256) →
  getCriticalMineralSummary s =
  Ok (mineralTypeList s,
      map (λ name, mineralTotal name s) (mineralTypeList s)).
Proof.
  intros Hfree Hcount Hfits.
  destruct (summaryLoop_totals s (mineralTypeList s) []
              (replicate (length (mineralTypeList s)) "") Hcount)
    as [minerals Hloop]; [|exact Hfits|].
  - intros name d Hname Hd Hhash. apply Hfree; [| |done].
    + apply elem_of_app. right. by apply list_elem_of_fmap_2.
    + apply elem_of_app. by left.
  - simpl in Hloop.
    pose proof (getCriticalMineralSummary_lists_catalog s minerals _ Hloop)
      as [Hminerals _].
    unfold getCriticalMineralSummary. rewrite Hloop. f_equal. f_equal.
    exact Hminerals.
Qed.

Lemma getCriticalMineralSummary_totals_witness :
  getCriticalMineralSummary (run initialStorage endToEnd)
    = Ok (["Lithium"; "Cobalt"], [40; 20]).
Proof.
  refine (eq_trans
            (getCriticalMineralSummary_totals (run initialStorage endToEnd)
               _ _ _) _).
  - apply collision_freeb_sound. vm_compute. reflexivity.
  - vm_compute. reflexivity.
  - intros name Hin.
    assert (Hcat : mineralTypeList (run initialStorage endToEnd)
                   = ["Lithium"; "Cobalt"]) by (vm_compute; reflexivity).
    rewrite Hcat in Hin.
    apply elem_of_cons in Hin as [->|Hin]; [vm_compute; discriminate|].
    apply elem_of_cons in Hin as [->|Hin]; [vm_compute; discriminate|].
    apply elem_of_nil in Hin. destruct Hin.
  - vm_compute. reflexivity.
Defined.

(** ** Bounds and edge cases of the risk query *)

Lemma checked_add_cases a b :
  checked_add a b = Ok (a + b) ∨ checked_add a b = Revert ArithmeticOverflow.
Proof. unfold checked_add. destruct (_ <=? _); auto. Qed.

Lemma scanHighRiskRegions_cases regions origin' q hr :
  scanHighRiskRegions regions origin' q hr = Ok hr ∨
  (regions ≠ [] ∧
   scanHighRiskRegions regions origin' q hr = checked_add hr q).
Proof.
  induction regions as [|r regions IH]; simpl; [by left|].
  destruct (_ =? _); [by right|].
  destruct IH as [->|[_ ->]]; [by left|by right].
Qed.

(** One iteration adds to the high-risk sum at most what it adds to the
    total, and fails only by overflow. *)
Lemma riskStep_cases s name regions tot hr i :
  match riskStep s name regions (tot, hr) i with
  | Ok (tot', hr') =>
      ∃ q, tot' = tot + q ∧ (hr' = hr ∨ (regions ≠ [] ∧ hr' = hr + q)) ∧
           (q ≠ 0 →
            isAnalyzed (mload (decryptedSupplyData s) i) = true ∧
            keccak256 (mineralType (mload (decryptedSupplyData s) i))
              = keccak256 name)
  | Revert e => e = ArithmeticOverflow
  end.
Proof.
  unfold riskStep, mbind, result_bind, mret, result_ret, abi_encodePacked.
  destruct (isAnalyzed _ && _) eqn:Hmatch.
  - apply andb_true_iff in Hmatch as [Han Hhash%N.eqb_eq].
    destruct (checked_add_cases tot
                (quantity (mload (decryptedSupplyData s) i))) as [->| ->];
      [|done].
    destruct (scanHighRiskRegions_cases regions
                (origin (mload (decryptedSupplyData s) i))
                (quantity (mload (decryptedSupplyData s) i)) hr)
      as [->|[Hne ->]].
    + destruct (checked_add_cases i 1) as [->| ->]; [|done].
      eexists. split; [done|]. split; [by left|by intros _].
    + destruct (checked_add_cases hr
                  (quantity (mload (decryptedSupplyData s) i)))
        as [->| ->]; [|done].
      destruct (checked_add_cases i 1) as [->| ->]; [|done].
      eexists. split; [done|]. split; [by right|by intros _].
  - destruct (checked_add_cases i 1) as [->| ->]; [|done].
    exists 0. rewrite N.add_0_r. split; [done|]. split; [by left|done].
Qed.

Lemma riskLoop_cases s name regions : ∀ ids tot hr,
  match riskLoop s name regions ids (tot, hr) with
  | Ok (tot', hr') =>
      tot ≤ tot' ∧ hr ≤ hr' ∧ hr' - hr ≤ tot' - tot ∧
      (regions = [] → hr' = hr) ∧
      ((∀ i, i ∈ ids →
          isAnalyzed (mload (decryptedSupplyData s) i) = true →
          keccak256 (mineralType (mload (decryptedSupplyData s) i))
            ≠ keccak256 name) → tot' = tot)
  | Revert e => e = ArithmeticOverflow
  end.
Proof.
  induction ids as [|i ids IH]; intros tot hr; cbn [riskLoop].
  - repeat split; (done || lia).
  - unfold mbind, result_bind.
    pose proof (riskStep_cases s name regions tot hr i) as Hstep.
    destruct (riskStep _ _ _ _ _) as [[tot1 hr1]|e]; [|exact Hstep].
    destruct Hstep as (q & -> & Hhr & Hq).
    specialize (IH (tot + q) hr1).
    destruct (riskLoop _ _ _ _ _) as [[tot' hr']|e]; [|exact IH].
    destruct IH as (Htot & Hrisk & Hdiff & Hempty & Hnone).
    split; [lia|]. split; [destruct Hhr as [->|[_ ->]]; lia|].
    split; [destruct Hhr as [->|[_ ->]]; lia|]. split.
    + intros ->. destruct Hhr as [->|[? _]]; [by apply Hempty|done].
    + intros Hno. destruct (decide (q = 0)) as [->|Hq0].
      * rewrite N.add_0_r in *. apply Hnone. intros j Hj. apply Hno.
        by right.
      * destruct (Hq Hq0) as [Han Hhash]. destruct (Hno i); [left|done..].
Qed.

(** X3: The risk query fails only by arithmetic overflow, and a score it
    returns is a percentage: at most 100. *)
Theorem calculateSupplyRisk_at_most_100 s name regions :
  (∀ score, calculateSupplyRisk name regions s = Ok score → score ≤ 100) ∧
  (∀ e, calculateSupplyRisk name regions s = Revert e →
        e = ArithmeticOverflow).
Proof.
  unfold calculateSupplyRisk, mbind, result_bind, mret, result_ret.
  pose proof (riskLoop_cases s name regions
                (indicesFromOne (dataCount s)) 0 0) as Hloop.
  destruct (riskLoop _ _ _ _ _) as [[tot hr]|e].
  - destruct Hloop as (_ & _ & Hdiff & _). rewrite !N.sub_0_r in Hdiff.
    destruct (0 <? tot) eqn:Hpos.
    + apply N.ltb_lt in Hpos.
      destruct (checked_add_cases 0 0) as [_|_].
      all: unfold checked_mul; destruct (_ <=? MAX_UINT256).
      all: split; [intros score [= <-]|intros e [=]]; try done.
      all: apply N.Div0.div_le_upper_bound; lia.
    + split; [intros score [= <-]; lia|done].
  - split; [done|]. by intros e' [= <-].
Qed.

Lemma calculateSupplyRisk_at_most_100_witness :
  calculateSupplyRisk "Lithium" ["A"; "B"] (run initialStorage endToEnd)
    = Ok 100 ∧
  100 ≤ 100.
Proof.
  assert (Hrun : calculateSupplyRisk "Lithium" ["A"; "B"]
                   (run initialStorage endToEnd) = Ok 100)
    by (vm_compute; reflexivity).
  split; [exact Hrun|].
  exact (proj1 (calculateSupplyRisk_at_most_100
                  (run initialStorage endToEnd) "Lithium" ["A"; "B"])
           100 Hrun).
Defined.

Lemma riskLoop_unmatched s name regions : ∀ ids acc,
  (∀ i, i ∈ ids → i + 1 ≤ MAX_UINT256) →
  (∀ i, i ∈ ids →
     isAnalyzed (mload (decryptedSupplyData s) i) = true →
     keccak256 (mineralType (mload (decryptedSupplyData s) i))
       ≠ keccak256 name) →
  riskLoop s name regions ids acc = Ok acc.
Proof.
  induction ids as [|i ids IH]; intros [tot hr] Hidx Hno; [done|].
  cbn [riskLoop]. unfold riskStep, abi_encodePacked.
  assert (Hskip : isAnalyzed (mload (decryptedSupplyData s) i)
                  && (keccak256
                        (mineralType (mload (decryptedSupplyData s) i))
                      =? keccak256 name) = false).
  { destruct (isAnalyzed _) eqn:Han; [|done]. simpl.
    apply N.eqb_neq, Hno; [left|done]. }
  rewrite Hskip. unfold mbind, result_bind, mret, result_ret.
  rewrite checked_add_fits by (apply Hidx; left).
  apply IH; intros; [apply Hidx|apply Hno]; (done || by right).
Qed.

(** X4: Edge cases of the risk query.  With an empty high-risk set a returned
    score is 0.  For a mineral that no resolved row among the assigned ids
    has (in particular on an empty ledger) the query returns 0 rather than
    failing. *)
Theorem calculateSupplyRisk_zero s name regions :
  (∀ score, calculateSupplyRisk name [] s = Ok score → score = 0) ∧
  (dataCount s < MAX_UINT256 →
   (∀ d, d ∈ revealedRows s → isAnalyzed d = true →
         keccak256 (mineralType d) ≠ keccak256 name) →
   calculateSupplyRisk name regions s = Ok 0).
Proof.
  split.
  - unfold calculateSupplyRisk, mbind, result_bind, mret, result_ret.
    pose proof (riskLoop_cases s name [] (indicesFromOne (dataCount s)) 0 0)
      as Hloop.
    destruct (riskLoop _ _ _ _ _) as [[tot hr]|e]; [|done].
    destruct Hloop as (_ & _ & _ & Hempty & _). rewrite (Hempty eq_refl).
    destruct (0 <? tot); intros score [= <-]; [|done].
    apply N.Div0.div_0_l.
  - intros Hcount Hno. unfold calculateSupplyRisk.
    rewrite riskLoop_unmatched; [done| |].
    + intros i Hi%indicesFromOne_elem. lia.
    + intros i Hi. apply Hno. unfold revealedRows.
      by apply list_elem_of_fmap_2.
Qed.

Lemma calculateSupplyRisk_zero_witness :
  calculateSupplyRisk "Nickel" ["A"; "B"] (run initialStorage endToEnd)
    = Ok 0.
Proof.
  refine (proj2 (calculateSupplyRisk_zero (run initialStorage endToEnd)
                   "Nickel" ["A"; "B"]) _ _).
  - vm_compute. reflexivity.
  - intros d Hd Han.
    assert (Hrows : revealedRows (run initialStorage endToEnd)
                    = [ {| mineralType := "Lithium"; quantity := 10;
                           origin := "A"; isAnalyzed := true |};
                        {| mineralType := "Cobalt"; quantity := 20;
                           origin := "B"; isAnalyzed := true |};
                        {| mineralType := "Lithium"; quantity := 30;
                           origin := "A"; isAnalyzed := true |} ])
      by (vm_compute; reflexivity).
    rewrite Hrows in Hd.
    repeat (apply elem_of_cons in Hd as [->|Hd];
            [vm_compute; discriminate|]).
    apply elem_of_nil in Hd. destruct Hd.
Defined.

Lemma riskLoop_ext s s' name regions : ∀ ids acc,
  (∀ i, i ∈ ids →
     mload (decryptedSupplyData s) i = mload (decryptedSupplyData s') i) →
  riskLoop s name regions ids acc = riskLoop s' name regions ids acc.
Proof.
  induction ids as [|i ids IH]; intros acc Hrows; [done|].
  cbn [riskLoop]. unfold riskStep. rewrite (Hrows i) by left.
  unfold mbind, result_bind.
  destruct (let '(_, _) := acc in _) as [acc'|e]; [|done].
  apply IH. intros; apply Hrows; by right.
Qed.

(** ** The risk query: the formula, or a revert (C8) *)

Lemma indicesFromOne_elem_2 n i : 1 ≤ i ≤ n → i ∈ indicesFromOne n.
Proof.
  intros Hi. unfold indicesFromOne. apply list_elem_of_fmap.
  exists (N.to_nat i). split; [by rewrite N2Nat.id|].
  apply elem_of_seq. lia.
Qed.

Lemma checked_add_ok a b c : checked_add a b = Ok c → a + b ≤ MAX_UINT256.
Proof.
  unfold checked_add. destruct (a + b <=? MAX_UINT256) eqn:Hfits; [|done].
  intros _. by apply N.leb_le.
Qed.

Lemma checked_mul_ok a b c : checked_mul a b = Ok c → a * b ≤ MAX_UINT256.
Proof.
  unfold checked_mul. destruct (a * b <=? MAX_UINT256) eqn:Hfits; [|done].
  intros _. by apply N.leb_le.
Qed.

(** A loop that returns has met no overflow: every index could be
    incremented and both sums fit. *)
Lemma riskLoop_ok_fits s name regions : ∀ ids tot hr acc',
  (∀ d, d ∈ map (mload (decryptedSupplyData s)) ids →
        keccak256 (mineralType d) = keccak256 name → mineralType d = name) →
  (∀ d r, d ∈ map (mload (decryptedSupplyData s)) ids → r ∈ regions →
          keccak256 (origin d) = keccak256 r → origin d = r) →
  tot ≤ MAX_UINT256 → hr ≤ MAX_UINT256 →
  riskLoop s name regions ids (tot, hr) = Ok acc' →
  (∀ i, i ∈ ids → i + 1 ≤ MAX_UINT256) ∧
  tot
    + sumQuantities
        (rowsOfMineral name (map (mload (decryptedSupplyData s)) ids))
    ≤ MAX_UINT256 ∧
  hr
    + sumQuantities
        (rowsAtRisk regions
           (rowsOfMineral name (map (mload (decryptedSupplyData s)) ids)))
    ≤ MAX_UINT256.
Proof.
  induction ids as [|i ids IH];
    intros tot hr acc' Hmineral Horigin Htot Hhr Hrun.
  - unfold rowsOfMineral, rowsAtRisk. simpl. rewrite !N.add_0_r.
    split; [|done]. by intros i ?%elem_of_nil.
  - simpl map in *. cbn [riskLoop] in Hrun. unfold riskStep in Hrun.
    remember (mload (decryptedSupplyData s) i) as d eqn:Hd. clear Hd.
    remember (map (mload (decryptedSupplyData s)) ids) as rows eqn:Hrows.
    assert (Hscan := scanHighRiskRegions_spec regions (origin d) (quantity d)
                       hr (λ r Hr, Horigin d r ltac:(left) Hr)).
    unfold abi_encodePacked, rowsOfMineral, rowsAtRisk in *.
    unfold mbind, result_bind, mret, result_ret in Hrun.
    assert (Hrest_m : ∀ d0, d0 ∈ rows →
              keccak256 (mineralType d0) = keccak256 name →
              mineralType d0 = name)
      by (intros; apply Hmineral; [by right|done]).
    assert (Hrest_o : ∀ d0 r, d0 ∈ rows → r ∈ regions →
              keccak256 (origin d0) = keccak256 r → origin d0 = r)
      by (intros; eapply Horigin; [by right|done..]).
    destruct (decide (isAnalyzed d = true ∧ mineralType d = name))
      as [[Han Hname]|Hno].
    + rewrite (filter_cons_True _ d rows) by done.
      rewrite Han, Hname, N.eqb_refl in Hrun. simpl andb in Hrun.
      cbv iota in Hrun.
      destruct (checked_add tot (quantity d)) as [tot1|] eqn:Eadd; [|done].
      pose proof (checked_add_ok _ _ _ Eadd) as Hfit1.
      rewrite (checked_add_fits _ _ Hfit1) in Eadd. injection Eadd as <-.
      rewrite Hscan in Hrun.
      destruct (decide (origin d ∈ regions)) as [Hin|Hout].
      * rewrite (filter_cons_True _ d) by done.
        rewrite bool_decide_eq_true_2 in Hrun by done.
        destruct (checked_add hr (quantity d)) as [hr1|] eqn:Eadd2; [|done].
        pose proof (checked_add_ok _ _ _ Eadd2) as Hfit2.
        rewrite (checked_add_fits _ _ Hfit2) in Eadd2. injection Eadd2 as <-.
        destruct (checked_add i 1) as [i1|] eqn:Ei; [|done].
        pose proof (checked_add_ok _ _ _ Ei) as Hi.
        destruct (IH _ _ _ Hrest_m Hrest_o Hfit1 Hfit2 Hrun)
          as (Hidx & Ht & Hr).
        rewrite !sumQuantities_cons. split; [|split; sums_lia].
        intros j [->|Hj]%elem_of_cons; [done|by apply Hidx].
      * rewrite (filter_cons_False _ d) by done.
        rewrite bool_decide_eq_false_2 in Hrun by done.
        destruct (checked_add i 1) as [i1|] eqn:Ei; [|done].
        pose proof (checked_add_ok _ _ _ Ei) as Hi.
        destruct (IH _ _ _ Hrest_m Hrest_o Hfit1 Hhr Hrun)
          as (Hidx & Ht & Hr).
        rewrite !sumQuantities_cons. split; [|split; sums_lia].
        intros j [->|Hj]%elem_of_cons; [done|by apply Hidx].
    + rewrite (filter_cons_False _ d rows) by done.
      assert (Hskip : isAnalyzed d
                      && (keccak256 (mineralType d) =? keccak256 name)
                      = false).
      { destruct (isAnalyzed d) eqn:Han; [|done]. simpl.
        apply N.eqb_neq. intros Heq. apply Hno. split; [done|].
        apply Hmineral; [left|done]. }
      rewrite Hskip in Hrun.
      destruct (checked_add i 1) as [i1|] eqn:Ei; [|done].
      pose proof (checked_add_ok _ _ _ Ei) as Hi.
      destruct (IH _ _ _ Hrest_m Hrest_o Htot Hhr Hrun) as (Hidx & Ht & Hr).
      split; [|done].
      intros j [->|Hj]%elem_of_cons; [done|by apply Hidx].
Qed.

Lemma sumQuantities_filter_le (P : DecryptedSupplyData → Prop)
    `{∀ d, Decision (P d)} rows :
  sumQuantities (filter P rows) ≤ sumQuantities rows.
Proof.
  induction rows as [|d rows IH]; [done|].
  rewrite filter_cons. destruct (decide (P d)).
  - rewrite !sumQuantities_cons. lia.
  - rewrite sumQuantities_cons. lia.
Qed.

(** The risk query reverts as soon as one of its checked operations
    overflows. *)
Lemma calculateSupplyRisk_overflow s name regions :
  collision_free (queryNames name regions s) →
  MAX_UINT256 ≤ dataCount s ∨
  MAX_UINT256 < sumQuantities (rowsOfMineral name (revealedRows s)) ∨
  MAX_UINT256
    < 100 * sumQuantities
              (rowsAtRisk regions (rowsOfMineral name (revealedRows s))) →
  calculateSupplyRisk name regions s = Revert ArithmeticOverflow.
Proof.
  intros Hfree Hover.
  destruct (calculateSupplyRisk name regions s) as [score|e] eqn:Hrun.
  - exfalso. unfold calculateSupplyRisk in Hrun.
    unfold mbind, result_bind, mret, result_ret in Hrun.
    destruct (riskLoop _ _ _ _ _) as [[tot hr]|] eqn:Hloop; [|done].
    assert (Hmineral : ∀ d, d ∈ revealedRows s →
              keccak256 (mineralType d) = keccak256 name →
              mineralType d = name).
    { intros d Hd Hhash. apply Hfree; [|by left|done].
      right. apply elem_of_app. right. apply elem_of_app. left.
      by apply list_elem_of_fmap_2. }
    assert (Horigin : ∀ d r, d ∈ revealedRows s → r ∈ regions →
              keccak256 (origin d) = keccak256 r → origin d = r).
    { intros d r Hd Hr Hhash. apply Hfree; [| |done].
      - right. apply elem_of_app. right. apply elem_of_app. right.
        by apply list_elem_of_fmap_2.
      - right. apply elem_of_app. by left. }
    assert (H0 : 0 ≤ MAX_UINT256) by apply N.le_0_l.
    destruct (riskLoop_ok_fits s name regions _ 0 0 _ Hmineral Horigin
                H0 H0 Hloop) as (Hidx & Ht & Hr).
    fold (revealedRows s) in Ht, Hr. rewrite N.add_0_l in Ht, Hr.
    rewrite riskLoop_spec in Hloop
      by (done || (rewrite N.add_0_l; by fold (revealedRows s))).
    fold (revealedRows s) in Hloop. rewrite !N.add_0_l in Hloop.
    injection Hloop as <- <-.
    destruct Hover as [Hcount|[Htotal|Hrisk]].
    + destruct (N.eq_0_gt_0_cases (dataCount s)) as [Hz|Hpos].
      * rewrite Hz in Hcount. revert Hcount. by vm_compute.
      * assert (Hmax : MAX_UINT256 ∈ indicesFromOne (dataCount s)).
        { apply indicesFromOne_elem_2. split; [|done]. by vm_compute. }
        apply Hidx in Hmax. lia.
    + sums_lia.
    + destruct (0 <? _) eqn:Hpos.
      * destruct (checked_mul _ 100) eqn:Emul; [|done].
        apply checked_mul_ok in Emul. sums_lia.
      * apply N.ltb_ge in Hpos.
        pose proof (sumQuantities_filter_le (λ d, origin d ∈ regions)
                      (rowsOfMineral name (revealedRows s))) as Hle.
        unfold rowsAtRisk in Hrisk. sums_lia.
  - f_equal.
    pose proof (riskLoop_cases s name regions
                  (indicesFromOne (dataCount s)) 0 0) as Hcases.
    unfold calculateSupplyRisk in Hrun.
    unfold mbind, result_bind, mret, result_ret in Hrun.
    destruct (riskLoop _ _ _ _ _) as [[tot hr]|e'].
    + destruct (0 <? tot); [|done]. unfold checked_mul in Hrun.
      destruct (_ <=? MAX_UINT256); [done|]. by injection Hrun as <-.
    + injection Hrun as <-. exact Hcases.
Qed.

(** C8 (amended): the risk query computes (100 * sum of the quantities of
    the resolved disclosures of the given mineral whose origin is in the
    high-risk set) divided, by integer division, by (sum of the quantities
    of all resolved disclosures of that mineral), and 0 when that total is
    0, exactly when its checked [uint256] arithmetic does not overflow:
    when [dataCount] is below [2 ^ 256 - 1] and the total and 100 times
    the high-risk sum are at most [2 ^ 256 - 1].  Otherwise, when
    [dataCount] has reached [2 ^ 256 - 1] or one of the two exceeds it,
    the query reverts with an arithmetic overflow.  Names are compared
    through Keccak-256, taken to be collision-free on the names compared
    (the mineral, the regions, and the minerals and origins of the rows).
    In particular, after the end-to-end run the query for "Cobalt" with
    high-risk set {"B"} yields 100 and the query for "Lithium" yields 0. *)
Theorem calculateSupplyRisk_formula_or_revert :
  (∀ s name regions,
     collision_free (queryNames name regions s) →
     (dataCount s < MAX_UINT256 ∧
      sumQuantities (rowsOfMineral name (revealedRows s)) ≤ MAX_UINT256 ∧
      100 * sumQuantities
              (rowsAtRisk regions (rowsOfMineral name (revealedRows s)))
        ≤ MAX_UINT256 →
      calculateSupplyRisk name regions s = Ok (riskScore name regions s)) ∧
     (MAX_UINT256 ≤ dataCount s ∨
      MAX_UINT256 < sumQuantities (rowsOfMineral name (revealedRows s)) ∨
      MAX_UINT256
        < 100 * sumQuantities
                  (rowsAtRisk regions
                     (rowsOfMineral name (revealedRows s))) →
      calculateSupplyRisk name regions s = Revert ArithmeticOverflow)) ∧
  calculateSupplyRisk "Cobalt" ["B"] (run initialStorage endToEnd) = Ok 100 ∧
  calculateSupplyRisk "Lithium" ["B"] (run initialStorage endToEnd) = Ok 0.
Proof.
  split; [|evaluate].
  intros s name regions Hfree. split.
  - intros (Hcount & Htotal & Hrisk). by apply calculateSupplyRisk_spec.
  - by apply calculateSupplyRisk_overflow.
Qed.

Lemma calculateSupplyRisk_formula_or_revert_witness :
  calculateSupplyRisk "Lithium" ["A"] (run initialStorage endToEnd)
    = Ok 100 ∧
  calculateSupplyRisk "Cobalt" ["B"] (run initialStorage hugeQuantity)
    = Revert ArithmeticOverflow.
Proof.
  split.
  - refine (eq_trans
              (proj1 (proj1 calculateSupplyRisk_formula_or_revert
                        (run initialStorage endToEnd) "Lithium" ["A"] _) _)
              _).
    + apply collision_freeb_sound. vm_compute. reflexivity.
    + split; [vm_compute; reflexivity|].
      split; vm_compute; discriminate.
    + vm_compute. reflexivity.
  - refine (proj2 (proj1 calculateSupplyRisk_formula_or_revert
                     (run initialStorage hugeQuantity) "Cobalt" ["B"] _) _).
    + apply collision_freeb_sound. vm_compute. reflexivity.
    + right. right. vm_compute. reflexivity.
Defined.

(** ** The counters and the resolved rows of the ledger (C6) *)

(** *** Counting the resolved rows of the ledger *)

Lemma indicesFromOne_NoDup n : NoDup (indicesFromOne n).
Proof.
  unfold indicesFromOne. apply (NoDup_fmap_2 N.of_nat), NoDup_seq.
Qed.

Lemma indicesFromOne_succ n :
  indicesFromOne (n + 1) = indicesFromOne n ++ [n + 1].
Proof.
  unfold indicesFromOne.
  replace (N.to_nat (n + 1)) with (N.to_nat n + 1)%nat by lia.
  rewrite seq_app, map_app. simpl. do 2 f_equal. lia.
Qed.

Lemma rows_insert_other (m : gmap N DecryptedSupplyData) d row ids :
  d ∉ ids → map (mload (<[d := row]> m)) ids = map (mload m) ids.
Proof.
  intros Hd. apply map_ext_in. intros i Hi%list_elem_of_In.
  apply mload_insert_ne. by intros ->.
Qed.

(** Resolving an unresolved row of [ids] adds one row to its category and
    none to the others. *)
Lemma rows_insert_resolved (m : gmap N DecryptedSupplyData) d name q o cat :
  ∀ ids,
  NoDup ids → d ∈ ids → isAnalyzed (mload m d) = false →
  length
    (rowsOfMineral cat
       (map (mload (<[d := {| mineralType := name; quantity := q;
                              origin := o; isAnalyzed := true |}]> m)) ids))
  = (length (rowsOfMineral cat (map (mload m) ids))
     + (if decide (name = cat) then 1 else 0))%nat.
Proof.
  induction ids as [|i ids IH]; intros Hnd Hd Hun; [by apply elem_of_nil in Hd|].
  apply list.NoDup_cons in Hnd as [Hi Hnd]. unfold rowsOfMineral in *.
  simpl map. rewrite !list.filter_cons.
  destruct (decide (i = d)) as [->|Hne].
  - rewrite mload_insert_eq, rows_insert_other by done. simpl.
    rewrite Hun.
    destruct (decide (true = true ∧ name = cat)) as [[_ Hc]|Hc];
      destruct (decide (false = true ∧ mineralType (mload m d) = cat))
        as [[? _]|_]; try done;
      destruct (decide (name = cat)); try done; simpl; try lia.
    destruct Hc. done.
  - rewrite mload_insert_ne by done.
    apply elem_of_cons in Hd as [->|Hd]; [done|].
    specialize (IH Hnd Hd Hun).
    destruct (decide (isAnalyzed (mload m i) = true
                      ∧ mineralType (mload m i) = cat)); simpl; lia.
Qed.

Lemma resolvedRowCount_submitted m q o t s cat :
  resolvedRowCount cat (submittedStorage m q o t s) = resolvedRowCount cat s.
Proof.
  unfold resolvedRowCount, revealedRows. simpl.
  rewrite indicesFromOne_succ, map_app. simpl. rewrite mload_insert_eq.
  rewrite rows_insert_other
    by (intros Hin%indicesFromOne_elem; lia).
  unfold rowsOfMineral. rewrite list.filter_app, length_app.
  rewrite filter_cons_False by (by intros [? _]). simpl. lia.
Qed.

(** What a call adds to the number of resolved rows of [cat]: one, for an
    accepted fulfill naming [cat] whose target is an assigned id. *)
Lemma exec_resolvedRowCount s c cat :
  resolvedRowCount cat (exec s c) =
  resolvedRowCount cat s
  + (if resolvesAssigned s c
     then (if decide (resolvedName s c = Some cat) then 1 else 0)
     else 0).
Proof.
  destruct c as [m q o t|dataId tok|r ct pf|name tok|r ct pf].
  - simpl. rewrite N.add_0_r, exec_submit.
    destruct (_ <=? _); [apply resolvedRowCount_submitted|done].
  - simpl. rewrite N.add_0_r, exec_requestSupplyAnalysis.
    by destruct (isAnalyzed (mload (decryptedSupplyData s) dataId)).
  - unfold resolvesAssigned, resolvedName, succeeds. simpl dispatch.
    destruct (exec_analyzeSupplyChain s r ct pf)
      as [[[e He] ->]|(name & q & o & Hdec & Hne & Hun & Hok & ->)].
    + rewrite He. simpl. by rewrite N.add_0_r.
    + rewrite Hok, Hdec. simpl.
      unfold resolvedRowCount, revealedRows.
      destruct (resolvedStorage_frame
                  (mload (requestToDataId s) r) name q o s) as (-> & _).
      rewrite resolvedStorage_decrypted.
      destruct (mload (requestToDataId s) r <=? dataCount s) eqn:Hassigned.
      * apply N.leb_le in Hassigned.
        rewrite rows_insert_resolved;
          [|apply indicesFromOne_NoDup
           |apply indicesFromOne_elem_2; lia|done].
        rewrite Nat2N.inj_add. f_equal.
        destruct (decide (name = cat)) as [->|Hc].
        -- by rewrite decide_True.
        -- rewrite decide_False; [done|]. by intros [= ?].
      * apply N.leb_gt in Hassigned.
        rewrite rows_insert_other
          by (intros Hin%indicesFromOne_elem; lia).
        by rewrite N.add_0_r.
  - simpl. rewrite N.add_0_r, exec_requestMineralStatsDecryption.
    by destruct (isInitialized (mload (encryptedMineralStats s) name)).
  - simpl. by rewrite N.add_0_r, exec_decryptMineralStats.
Qed.

Lemma resolutionCount_step cat names (o : option string) :
  resolutionCount cat (names ++ from_option (λ n, [n]) [] o) =
  resolutionCount cat names + (if decide (o = Some cat) then 1 else 0).
Proof.
  destruct o as [n|]; simpl.
  - rewrite resolutionCount_snoc. f_equal.
    destruct (decide (n = cat)) as [->|Hn].
    + by rewrite decide_True.
    + rewrite decide_False; [done|]. by intros [= ?].
  - by rewrite app_nil_r, N.add_0_r.
Qed.

(** The resolved rows of a category never outnumber its resolutions, and
    match them when every accepted fulfill targeted an assigned id. *)
Lemma run_resolvedRowCount cat calls : ∀ s names,
  (resolvedRowCount cat s ≤ resolutionCount cat names →
   resolvedRowCount cat (run s calls)
     ≤ resolutionCount cat (names ++ resolvedNames s calls)) ∧
  (resolvesAssignedOnly s calls = true →
   resolvedRowCount cat s = resolutionCount cat names →
   resolvedRowCount cat (run s calls)
     = resolutionCount cat (names ++ resolvedNames s calls)).
Proof.
  induction calls as [|c calls IH]; intros s names.
  - simpl. by rewrite app_nil_r.
  - rewrite run_cons, resolvedNames_cons, app_assoc.
    destruct (IH (exec s c)
                (names ++ from_option (λ n, [n]) [] (resolvedName s c)))
      as [IHle IHeq].
    pose proof (exec_resolvedRowCount s c cat) as Hstep.
    pose proof (resolutionCount_step cat names (resolvedName s c)) as Hcount.
    split.
    + intros Hle. apply IHle. rewrite Hstep, Hcount.
      destruct (resolvesAssigned s c); destruct (decide _); lia.
    + simpl. intros [Hc Hrest]%andb_true_iff Heq. apply IHeq; [done|].
      rewrite Hstep, Hcount, Hc. lia.
Qed.

(** C6, as stated, fails: a row resolved as "Cobalt" at id 1 before the id
    is assigned is reset by the submit that assigns id 1 and is resolved
    again through the same token.  The ledger then holds one resolved
    disclosure of "Cobalt", but the counter holds the encryption of 2. *)
Lemma counter_exceeds_resolved_disclosures :
  dataCount (run initialStorage resolvedTwice) = 1 ∧
  getDecryptedSupplyData 1 (run initialStorage resolvedTwice)
    = Ok ("Cobalt", 5, "C", true) ∧
  resolvedRowCount "Cobalt" (run initialStorage resolvedTwice) = 1 ∧
  getEncryptedMineralStats "Cobalt" (run initialStorage resolvedTwice)
    = Ok (Encrypted 2) ∧
  getEncryptedMineralStats "Cobalt" (run initialStorage resolvedTwice)
    ≠ Ok (Encrypted 1).
Proof.
  split; [vm_compute; reflexivity|].
  split; [vm_compute; reflexivity|].
  split; [vm_compute; reflexivity|].
  split; [vm_compute; reflexivity|].
  vm_compute. discriminate.
Qed.

(** C6 (amended): the catalog never contains duplicates and each counter
    counts resolutions.  After any sequence of calls the catalog is the
    list of the resolved categories in the order of their first
    resolution, so a name is in it exactly when it was resolved at least
    once, and the counter of a category named by [k] accepted fulfills
    holds the encryption of [k] (for [k] below [2 ^ 32], the range of the
    encrypted counter), whatever the quantities were; a category never
    resolved has no counter.  The number of resolved disclosures of the
    category in the ledger is at most [k], and it is exactly [k] when every
    accepted fulfill targeted an id that was already assigned; a row
    resolved before its id is assigned is reset by the later submit, so
    [k] can be larger.  A resolution appends its category to the catalog
    exactly when the catalog does not have it yet, starting the counter
    from encrypted zero, and adds encrypted one to the counter. *)
Theorem counters_count_resolutions calls :
  NoDup (mineralTypeList (run initialStorage calls)) ∧
  mineralTypeList (run initialStorage calls)
    = firstOccurrences (resolvedNames initialStorage calls) ∧
  (∀ c,
     (c ∈ mineralTypeList (run initialStorage calls) ↔
      0 < resolutionCount c (resolvedNames initialStorage calls)) ∧
     (resolutionCount c (resolvedNames initialStorage calls) = 0 →
      getEncryptedMineralStats c (run initialStorage calls)
        = Ok Uninitialized) ∧
     (0 < resolutionCount c (resolvedNames initialStorage calls) < 2 ^ 32 →
      getEncryptedMineralStats c (run initialStorage calls)
        = Ok (Encrypted
                (resolutionCount c (resolvedNames initialStorage calls)))) ∧
     resolvedRowCount c (run initialStorage calls)
       ≤ resolutionCount c (resolvedNames initialStorage calls) ∧
     (resolvesAssignedOnly initialStorage calls = true →
      resolvedRowCount c (run initialStorage calls)
        = resolutionCount c (resolvedNames initialStorage calls)) ∧
     (resolvesAssignedOnly initialStorage calls = true →
      0 < resolvedRowCount c (run initialStorage calls) < 2 ^ 32 →
      getEncryptedMineralStats c (run initialStorage calls)
        = Ok (Encrypted (resolvedRowCount c (run initialStorage calls))))) ∧
  (∀ dataId c q o,
     mineralTypeList (resolvedStorage dataId c q o (run initialStorage calls))
       = (if bool_decide (c ∈ mineralTypeList (run initialStorage calls))
          then mineralTypeList (run initialStorage calls)
          else mineralTypeList (run initialStorage calls) ++ [c]) ∧
     mload (encryptedMineralStats
              (resolvedStorage dataId c q o (run initialStorage calls))) c
       = FHE.add
           (if bool_decide (c ∈ mineralTypeList (run initialStorage calls))
            then mload (encryptedMineralStats (run initialStorage calls)) c
            else asEuint32 0)
           (asEuint32 1)).
Proof.
  destruct (catalog_and_counters calls) as (Hnd & Hlist & Hcount & Hstep).
  split; [exact Hnd|]. split; [exact Hlist|]. split; [|exact Hstep].
  intros c. destruct (Hcount c) as (Hin & Hzero & Hpos).
  destruct (run_resolvedRowCount c calls initialStorage []) as [Hle Heq].
  simpl in Hle, Heq.
  assert (Hinit : resolvedRowCount c initialStorage = 0) by reflexivity.
  assert (Hnil : resolutionCount c [] = 0) by reflexivity.
  split; [exact Hin|]. split; [exact Hzero|]. split; [exact Hpos|].
  split; [apply Hle; rewrite Hinit, Hnil; lia|].
  split; [intros Hdisc; apply Heq; [exact Hdisc|by rewrite Hinit, Hnil]|].
  intros Hdisc Hrange. rewrite (Heq Hdisc) in * by (by rewrite Hinit, Hnil).
  by apply Hpos.
Qed.

Lemma counters_count_resolutions_witness :
  mineralTypeList (run initialStorage twoCobalt) = ["Cobalt"] ∧
  resolvedRowCount "Cobalt" (run initialStorage twoCobalt) = 2 ∧
  getEncryptedMineralStats "Cobalt" (run initialStorage twoCobalt)
    = Ok (Encrypted 2).
Proof.
  destruct (counters_count_resolutions twoCobalt) as (_ & Hlist & Hcount & _).
  destruct (Hcount "Cobalt") as (_ & _ & _ & _ & Heq & Hcounter).
  split; [exact Hlist|].
  assert (Hdisc : resolvesAssignedOnly initialStorage twoCobalt = true)
    by (vm_compute; reflexivity).
  split.
  - refine (eq_trans (Heq Hdisc) _). vm_compute. reflexivity.
  - refine (eq_trans (Hcounter Hdisc _) _).
    + vm_compute. split; reflexivity.
    + vm_compute. reflexivity.
Defined.

(** ** What the reporting views read *)

Lemma summaryInnerLoop_ext s s' name i : ∀ ids totalQuantities,
  (∀ j, j ∈ ids →
     mload (decryptedSupplyData s) j = mload (decryptedSupplyData s') j) →
  summaryInnerLoop s name i ids totalQuantities
    = summaryInnerLoop s' name i ids totalQuantities.
Proof.
  induction ids as [|j ids IH]; intros totals Hrows; [done|].
  cbn [summaryInnerLoop].
  assert (Hstep : summaryStep s name i totals j
                  = summaryStep s' name i totals j).
  { unfold summaryStep. by rewrite (Hrows j) by left. }
  rewrite Hstep. unfold mbind, result_bind.
  destruct (summaryStep s' name i totals j) as [totals'|e]; [|done].
  apply IH. intros; apply Hrows; by right.
Qed.

Lemma summaryLoop_ext s s' : ∀ rest i minerals totalQuantities,
  dataCount s = dataCount s' →
  (∀ j, 1 ≤ j ≤ dataCount s →
     mload (decryptedSupplyData s) j = mload (decryptedSupplyData s') j) →
  summaryLoop s rest i minerals totalQuantities
    = summaryLoop s' rest i minerals totalQuantities.
Proof.
  induction rest as [|name rest IH]; intros i minerals totals Hcount Hrows;
    [done|].
  cbn [summaryLoop]. rewrite <- Hcount.
  rewrite (summaryInnerLoop_ext s s')
    by (intros j Hj%indicesFromOne_elem; by apply Hrows).
  unfold mbind, result_bind.
  destruct (summaryInnerLoop _ _ _ _ _); [|done]. by apply IH.
Qed.

(** X5: The two reporting views read the ledger only at the assigned ids
    [1 .. dataCount]: rows stored at other ids (id 0, or ids never
    assigned by a submit), the counters and the request table do not
    influence their results. *)
Theorem views_read_assigned_rows_only s s' :
  dataCount s = dataCount s' →
  (∀ i, 1 ≤ i ≤ dataCount s →
     mload (decryptedSupplyData s) i = mload (decryptedSupplyData s') i) →
  (∀ name regions,
     calculateSupplyRisk name regions s
       = calculateSupplyRisk name regions s') ∧
  (mineralTypeList s = mineralTypeList s' →
   getCriticalMineralSummary s = getCriticalMineralSummary s').
Proof.
  intros Hcount Hrows. split.
  - intros name regions. unfold calculateSupplyRisk. rewrite <- Hcount.
    by rewrite (riskLoop_ext s s')
      by (intros i Hi%indicesFromOne_elem; by apply Hrows).
  - intros Hcat. unfold getCriticalMineralSummary. rewrite <- Hcat.
    by apply summaryLoop_ext.
Qed.

(** A row resolved at the never-assigned id 5 is not seen by the risk
    query. *)
Lemma views_read_assigned_rows_only_witness :
  calculateSupplyRisk "Cobalt" ["B"]
    (run initialStorage
       [RequestSupplyAnalysis 5 0; resolveCall 0 "Cobalt" 20 "B"])
  = calculateSupplyRisk "Cobalt" ["B"] initialStorage.
Proof.
  refine (proj1 (views_read_assigned_rows_only
                   (run initialStorage
                      [RequestSupplyAnalysis 5 0;
                       resolveCall 0 "Cobalt" 20 "B"])
                   initialStorage _ _) "Cobalt" ["B"]).
  - vm_compute. reflexivity.
  - intros i [Hlo Hhi]. exfalso. revert Hlo Hhi.
    replace (dataCount
               (run initialStorage
                  [RequestSupplyAnalysis 5 0;
                   resolveCall 0 "Cobalt" 20 "B"])) with 0
      by (vm_compute; reflexivity).
    lia.
Defined.

(** ** Invariants of the ledger *)

Lemma exec_effect s c : effect s (exec s c).
Proof.
  destruct c as [m q o t|dataId tok|r ct pf|name tok|r ct pf].
  - rewrite exec_submit. destruct (_ <=? _) eqn:Hfits; [|constructor].
    apply effect_submit. by apply N.leb_le.
  - rewrite exec_requestSupplyAnalysis.
    destruct (isAnalyzed _) eqn:Han; [constructor|].
    by apply effect_request.
  - destruct (exec_analyzeSupplyChain s r ct pf)
      as [[_ ->]|(name & q & o & _ & Hne & Hun & _ & ->)]; [constructor|].
    by apply effect_resolve.
  - rewrite exec_requestMineralStatsDecryption.
    destruct (isInitialized _) eqn:Hinit; [|constructor].
    by apply effect_request_stats.
  - rewrite exec_decryptMineralStats. constructor.
Qed.

(** A property of the storage kept by every effect holds along every
    run. *)
Lemma run_invariant (P : Storage → Prop) :
  (∀ s s', effect s s' → P s → P s') →
  ∀ calls s, P s → P (run s calls).
Proof.
  intros Hstep calls. induction calls as [|c calls IH]; intros s Hs; [done|].
  rewrite run_cons. apply IH. eapply Hstep; [apply exec_effect|done].
Qed.

(** X6: The ledger of disclosures: at every reachable state the counter is a
    [uint256], the disclosure stored under each assigned id carries that
    id, and nothing is stored under id 0 or under an id above the
    counter. *)
Theorem ledger_ids_consistent calls :
  dataCount (run initialStorage calls) ≤ MAX_UINT256 ∧
  (∀ id, 1 ≤ id ≤ dataCount (run initialStorage calls) →
     id_ (mload (encryptedSupplyData (run initialStorage calls)) id) = id) ∧
  (∀ id, id = 0 ∨ dataCount (run initialStorage calls) < id →
     mload (encryptedSupplyData (run initialStorage calls)) id
       = zero_value).
Proof.
  apply (run_invariant (λ s,
    dataCount s ≤ MAX_UINT256 ∧
    (∀ id, 1 ≤ id ≤ dataCount s →
       id_ (mload (encryptedSupplyData s) id) = id) ∧
    (∀ id, id = 0 ∨ dataCount s < id →
       mload (encryptedSupplyData s) id = zero_value))).
  - intros s s' Heff (Hmax & Hids & Hzero).
    destruct Heff as [|m q o t Hfits|dataId tok _|name tok _|r name q o _ _];
      try done.
    + simpl. split; [done|]. split.
      * intros id Hid. rewrite mload_insert. case_decide; [by subst|].
        apply Hids. lia.
      * intros id Hid. rewrite mload_insert_ne by lia. apply Hzero. lia.
    + by destruct (resolvedStorage_frame
                     (mload (requestToDataId s) r) name q o s)
        as (-> & -> & _).
  - split; [done|]. split; [simpl; lia|]. intros id _. apply mload_empty.
Qed.

Lemma ledger_ids_consistent_witness :
  id_ (mload (encryptedSupplyData (run initialStorage endToEnd)) 2) = 2.
Proof.
  refine (proj1 (proj2 (ledger_ids_consistent endToEnd)) 2 _).
  vm_compute. split; discriminate.
Defined.

(** X7: A disclosure is immutable: once an id is assigned, no sequence of calls
    changes the ciphertexts, the id or the timestamp stored under it. *)
Theorem disclosure_immutable s calls id :
  id ≤ dataCount s →
  mload (encryptedSupplyData (run s calls)) id
    = mload (encryptedSupplyData s) id.
Proof.
  intros Hid.
  apply (run_invariant (λ s',
    dataCount s ≤ dataCount s' ∧
    mload (encryptedSupplyData s') id = mload (encryptedSupplyData s) id));
    [|done].
  intros s1 s2 Heff [Hmono Hsame].
  destruct Heff as [|m q o t Hfits|dataId tok _|name tok _|r name q o _ _];
    try done.
  - simpl. split; [lia|]. rewrite mload_insert_ne by lia. exact Hsame.
  - by destruct (resolvedStorage_frame
                   (mload (requestToDataId s1) r) name q o s1)
      as (-> & -> & _).
Qed.

Lemma disclosure_immutable_witness :
  mload
    (encryptedSupplyData
       (run (run initialStorage (take 1 endToEnd)) (drop 1 endToEnd))) 1
    = mload (encryptedSupplyData (run initialStorage (take 1 endToEnd))) 1.
Proof.
  apply disclosure_immutable. vm_compute. discriminate.
Defined.


(** ** The catalog, the category requests and the fingerprint lookup *)

Lemma recordMineral_catalog name s :
  mineralTypeList (recordMineral name s) =
  if isInitialized (mload (encryptedMineralStats s) name)
  then mineralTypeList s
  else mineralTypeList s ++ [name].
Proof.
  unfold recordMineral.
  by destruct (isInitialized (mload (encryptedMineralStats s) name)).
Qed.

Lemma recordMineral_initialized name s other :
  isInitialized (mload (encryptedMineralStats s) other) = true ∨ other = name →
  isInitialized (mload (encryptedMineralStats (recordMineral name s)) other)
    = true.
Proof.
  intros Hother. unfold recordMineral.
  destruct (isInitialized (mload (encryptedMineralStats s) name)) eqn:Hinit;
    simpl; rewrite !mload_insert;
    destruct (decide (name = other)) as [<-|Hne]; try done;
    destruct Hother as [?|?]; try done; congruence.
Qed.

(** X9: The catalog is append-only and a counter, once created, stays: along
    any run from any storage the old catalog is a prefix of the new one,
    and every initialized counter is still initialized. *)
Theorem catalog_is_append_only s calls :
  mineralTypeList s `prefix_of` mineralTypeList (run s calls) ∧
  (∀ name,
     isInitialized (mload (encryptedMineralStats s) name) = true →
     isInitialized (mload (encryptedMineralStats (run s calls)) name)
       = true).
Proof.
  apply (run_invariant (λ s',
    mineralTypeList s `prefix_of` mineralTypeList s' ∧
    (∀ name,
       isInitialized (mload (encryptedMineralStats s) name) = true →
       isInitialized (mload (encryptedMineralStats s') name) = true)));
    [|done].
  intros s1 s2 Heff [Hprefix Hinit].
  destruct Heff as [|m q o t _|dataId tok _|name tok _|r name q o _ _];
    try done.
  unfold resolvedStorage. split.
  - rewrite recordMineral_catalog. simpl.
    destruct (isInitialized _); [done|]. by apply prefix_app_r.
  - intros other Hother. apply recordMineral_initialized. left. simpl.
    by apply Hinit.
Qed.

(** X10: At every reachable state the category of every resolved row, at any
    id, is in the catalog and has an initialized counter, so an aggregate
    decryption can be requested for it. *)
Theorem resolved_rows_are_cataloged calls id token :
  isAnalyzed (mload (decryptedSupplyData (run initialStorage calls)) id)
    = true →
  mineralType (mload (decryptedSupplyData (run initialStorage calls)) id)
    ∈ mineralTypeList (run initialStorage calls) ∧
  succeeds (run initialStorage calls)
    (RequestMineralStatsDecryption
       (mineralType
          (mload (decryptedSupplyData (run initialStorage calls)) id))
       token) = true.
Proof.
  intros Hres.
  assert (Hinit : isInitialized
    (mload (encryptedMineralStats (run initialStorage calls))
       (mineralType
          (mload (decryptedSupplyData (run initialStorage calls)) id)))
    = true).
  { revert id Hres.
    apply (run_invariant (λ s, ∀ id,
      isAnalyzed (mload (decryptedSupplyData s) id) = true →
      isInitialized
        (mload (encryptedMineralStats s)
           (mineralType (mload (decryptedSupplyData s) id))) = true)).
    - intros s s' Heff Hinv id.
      destruct Heff as [|m q o t _|dataId tok _|name tok _|r name q o _ _];
        try apply Hinv.
      + simpl. rewrite mload_insert. case_decide; [done|apply Hinv].
      + rewrite resolvedStorage_decrypted, mload_insert.
        unfold resolvedStorage. intros Hres.
        apply recordMineral_initialized. simpl.
        case_decide; [by right|]. left. by apply Hinv.
    - intros id. simpl. by rewrite mload_empty. }
  split; [by apply catalog_lists_counters|].
  by rewrite succeeds_requestMineralStatsDecryption.
Qed.

Lemma resolved_rows_are_cataloged_witness :
  mineralType (mload (decryptedSupplyData (run initialStorage endToEnd)) 2)
    ∈ mineralTypeList (run initialStorage endToEnd).
Proof.
  refine (proj1 (resolved_rows_are_cataloged endToEnd 2 0 _)).
  vm_compute. reflexivity.
Defined.

(** X11: A category request is accepted exactly for the cataloged categories:
    at a reachable state it registers the fingerprint under its token,
    emitting no event and writing nothing else, when the category is in
    the catalog, and otherwise reverts with "Mineral type not found". *)
Theorem requestMineralStatsDecryption_guard calls name token :
  (name ∈ mineralTypeList (run initialStorage calls) →
   requestMineralStatsDecryption name token (run initialStorage calls)
     = Ok (tt,
           set_requestToDataId token (fingerprint name)
             (run initialStorage calls),
           [])) ∧
  (name ∉ mineralTypeList (run initialStorage calls) →
   requestMineralStatsDecryption name token (run initialStorage calls)
     = Revert MineralTypeNotFound).
Proof.
  rewrite requestMineralStatsDecryption_eq, catalog_lists_counters.
  destruct (isInitialized _); split; done.
Qed.

Lemma requestMineralStatsDecryption_guard_witness :
  requestMineralStatsDecryption "Nickel" 3 (run initialStorage endToEnd)
    = Revert MineralTypeNotFound.
Proof.
  refine (proj2 (requestMineralStatsDecryption_guard endToEnd "Nickel" 3) _).
  assert (Hcat : mineralTypeList (run initialStorage endToEnd)
                 = ["Lithium"; "Cobalt"]) by (vm_compute; reflexivity).
  rewrite Hcat. intros Hin.
  apply elem_of_cons in Hin as [Heq|Hin]; [discriminate Heq|].
  apply elem_of_cons in Hin as [Heq|Hin]; [discriminate Heq|].
  apply elem_of_nil in Hin. destruct Hin.
Defined.

(** X12: The fingerprint lookup returns the first catalog entry with the given
    fingerprint, and fails exactly when no entry has it; no assumption on
    Keccak-256 is needed. *)
Theorem getMineralTypeFromHash_first_match s hash :
  (∀ name,
     getMineralTypeFromHash hash s = Ok name ↔
     ∃ before after,
       mineralTypeList s = before ++ name :: after ∧
       fingerprint name = hash ∧
       ∀ n, n ∈ before → fingerprint n ≠ hash) ∧
  (getMineralTypeFromHash hash s = Revert MineralTypeNotFound ↔
   ∀ n, n ∈ mineralTypeList s → fingerprint n ≠ hash).
Proof.
  unfold getMineralTypeFromHash.
  induction (mineralTypeList s) as [|n names [IHok IHrev]]; simpl.
  - split.
    + intros name. split; [done|]. intros ([|? ?] & after & Heq & _); done.
    + split; [|done]. by intros _ n ?%elem_of_nil.
  - fold (fingerprint n).
    destruct (fingerprint n =? hash) eqn:E.
    + apply N.eqb_eq in E. split.
      * intros name. split.
        -- intros [= <-]. exists [], names. split; [done|]. split; [done|].
           by intros ? ?%elem_of_nil.
        -- intros ([|b before] & after & Heq & Hfp & Hbefore).
           ++ by injection Heq as ->.
           ++ injection Heq as -> _. destruct (Hbefore b); [left|done].
      * split; [done|]. intros Hno. destruct (Hno n); [left|done].
    + apply N.eqb_neq in E. split.
      * intros name. rewrite IHok. split.
        -- intros (before & after & -> & Hfp & Hbefore).
           exists (n :: before), after. split; [done|]. split; [done|].
           intros n' [->|Hn']%elem_of_cons; [done|by apply Hbefore].
        -- intros ([|b before] & after & Heq & Hfp & Hbefore).
           ++ injection Heq as -> _. done.
           ++ injection Heq as -> ->. exists before, after.
              split; [done|]. split; [done|].
              intros n' Hn'. apply Hbefore. by right.
      * rewrite IHrev. split.
        -- intros Hno n' [->|Hn']%elem_of_cons; [done|by apply Hno].
        -- intros Hno n' Hn'. apply Hno. by right.
Qed.

(** ** Submitting over a resolved row, the event log, fingerprints *)

(** X13: A submit wipes what was revealed at the id it assigns.  When a token
    targets the next id to be assigned, a fulfill resolves that row, the
    submit that assigns the id resets it to the empty placeholder, and a
    second fulfill of the same token is accepted again and writes the new
    payload. *)
Theorem submit_reopens_resolved_row s token m q o t
    cleartexts1 proof1 name1 q1 o1 cleartexts2 proof2 name2 q2 o2 :
  mload (requestToDataId s) token = dataCount s + 1 →
  dataCount s + 1 ≤ MAX_UINT256 →
  isAnalyzed (mload (decryptedSupplyData s) (dataCount s + 1)) = false →
  signaturesValid token cleartexts1 proof1 = true →
  as_string_uint256_string cleartexts1 = Some (name1, q1, o1) →
  signaturesValid token cleartexts2 proof2 = true →
  as_string_uint256_string cleartexts2 = Some (name2, q2, o2) →
  mload
    (decryptedSupplyData
       (run s [AnalyzeSupplyChain token cleartexts1 proof1]))
    (dataCount s + 1)
    = {| mineralType := name1; quantity := q1; origin := o1;
         isAnalyzed := true |} ∧
  mload
    (decryptedSupplyData
       (run s [AnalyzeSupplyChain token cleartexts1 proof1;
               SubmitEncryptedSupplyData m q o t]))
    (dataCount s + 1)
    = emptyDecrypted ∧
  dataCount
    (run s [AnalyzeSupplyChain token cleartexts1 proof1;
            SubmitEncryptedSupplyData m q o t])
    = dataCount s + 1 ∧
  mload
    (decryptedSupplyData
       (run s [AnalyzeSupplyChain token cleartexts1 proof1;
               SubmitEncryptedSupplyData m q o t;
               AnalyzeSupplyChain token cleartexts2 proof2]))
    (dataCount s + 1)
    = {| mineralType := name2; quantity := q2; origin := o2;
         isAnalyzed := true |}.
Proof.
  intros Htok Hfits Hun Hsig1 Hdec1 Hsig2 Hdec2.
  assert (Hne : (dataCount s + 1 =? 0) = false) by (apply N.eqb_neq; lia).
  assert (Hfitsb : (dataCount s + 1 <=? MAX_UINT256) = true)
    by by apply N.leb_le.
  assert (E1 : exec s (AnalyzeSupplyChain token cleartexts1 proof1)
               = resolvedStorage (dataCount s + 1) name1 q1 o1 s).
  { unfold exec, dispatch. rewrite analyzeSupplyChain_eq. simpl.
    by rewrite Htok, Hne, Hun, Hsig1, Hdec1. }
  destruct (resolvedStorage_frame (dataCount s + 1) name1 q1 o1 s)
    as (Hcount1 & _ & Htab1).
  assert (E2 : exec (resolvedStorage (dataCount s + 1) name1 q1 o1 s)
                 (SubmitEncryptedSupplyData m q o t)
               = submittedStorage m q o t
                   (resolvedStorage (dataCount s + 1) name1 q1 o1 s)).
  { by rewrite exec_submit, Hcount1, Hfitsb. }
  set (s2 := submittedStorage m q o t
               (resolvedStorage (dataCount s + 1) name1 q1 o1 s)) in *.
  assert (Hrow2 : mload (decryptedSupplyData s2) (dataCount s + 1)
                  = emptyDecrypted).
  { unfold s2, submittedStorage. cbn [decryptedSupplyData
      set_decryptedSupplyData]. rewrite Hcount1. apply mload_insert_eq. }
  assert (Htab2 : mload (requestToDataId s2) token = dataCount s + 1).
  { unfold s2, submittedStorage. cbn [requestToDataId
      set_decryptedSupplyData set_encryptedSupplyData set_dataCount].
    by rewrite Htab1. }
  assert (E3 : exec s2 (AnalyzeSupplyChain token cleartexts2 proof2)
               = resolvedStorage (dataCount s + 1) name2 q2 o2 s2).
  { unfold exec, dispatch. rewrite analyzeSupplyChain_eq. cbv zeta.
    by rewrite Htab2, Hne, Hrow2, Hsig2, Hdec2. }
  unfold run. simpl fold_left. rewrite E1, E2, E3.
  split; [by rewrite resolvedStorage_decrypted, mload_insert_eq|].
  split; [exact Hrow2|].
  split; [unfold s2, submittedStorage;
          cbn [dataCount set_decryptedSupplyData set_encryptedSupplyData
               set_dataCount]; by rewrite Hcount1|].
  by rewrite resolvedStorage_decrypted, mload_insert_eq.
Qed.

Lemma submit_reopens_resolved_row_witness :
  mload
    (decryptedSupplyData
       (run (run initialStorage [RequestSupplyAnalysis 1 0])
          [AnalyzeSupplyChain 0 (supplyPayload "Cobalt" 20 "B")
             (Signature 0 (supplyPayload "Cobalt" 20 "B"));
           SubmitEncryptedSupplyData (Encrypted 2) (Encrypted 5)
             (Encrypted 9) 1000]))
    (dataCount (run initialStorage [RequestSupplyAnalysis 1 0]) + 1)
  = emptyDecrypted.
Proof.
  refine (proj1 (proj2 (submit_reopens_resolved_row
            (run initialStorage [RequestSupplyAnalysis 1 0]) 0
            (Encrypted 2) (Encrypted 5) (Encrypted 9) 1000
            (supplyPayload "Cobalt" 20 "B")
            (Signature 0 (supplyPayload "Cobalt" 20 "B")) "Cobalt" 20 "B"
            (supplyPayload "Cobalt" 5 "C")
            (Signature 0 (supplyPayload "Cobalt" 5 "C")) "Cobalt" 5 "C"
            _ _ _ _ _ _ _))).
  - vm_compute. reflexivity.
  - vm_compute. discriminate.
  - vm_compute. reflexivity.
  - vm_compute. reflexivity.
  - reflexivity.
  - vm_compute. reflexivity.
  - reflexivity.
Defined.

(** *** The event log *)

Lemma eventsOf_submittedIds s c :
  indicesFromOne (dataCount s) ++ submittedIds (eventsOf s c)
  = indicesFromOne (dataCount (exec s c)).
Proof.
  unfold eventsOf, exec.
  destruct c as [m q o t|dataId tok|r ct pf|name tok|r ct pf];
    unfold dispatch.
  - rewrite submitEncryptedSupplyData_eq.
    destruct (_ <=? _); [|by rewrite app_nil_r].
    simpl. by rewrite indicesFromOne_succ.
  - rewrite requestSupplyAnalysis_eq.
    destruct (isAnalyzed _); simpl; by rewrite app_nil_r.
  - destruct (exec_analyzeSupplyChain s r ct pf)
      as [[[e He] _]|(name & q & o & _ & _ & _ & Hok & _)].
    + rewrite He. by rewrite app_nil_r.
    + rewrite Hok.
      destruct (resolvedStorage_frame
                  (mload (requestToDataId s) r) name q o s) as (-> & _).
      simpl. by rewrite app_nil_r.
  - rewrite requestMineralStatsDecryption_eq.
    destruct (isInitialized _); simpl; by rewrite app_nil_r.
  - rewrite decryptMineralStats_eq.
    destruct (getMineralTypeFromHash _ s); [|by rewrite app_nil_r].
    destruct (negb _); [by rewrite app_nil_r|].
    destruct (as_uint32 ct); by rewrite app_nil_r.
Qed.

Lemma submittedIds_app log1 log2 :
  submittedIds (log1 ++ log2) = submittedIds log1 ++ submittedIds log2.
Proof. unfold submittedIds. apply omap_app. Qed.

Lemma runLog_submittedIds calls : ∀ s,
  indicesFromOne (dataCount s) ++ submittedIds (runLog s calls)
  = indicesFromOne (dataCount (run s calls)).
Proof.
  induction calls as [|c calls IH]; intros s.
  - simpl. by rewrite app_nil_r.
  - rewrite run_cons. cbn [runLog].
    by rewrite submittedIds_app, app_assoc, eventsOf_submittedIds, IH.
Qed.

(** X14: Ids are assigned consecutively whatever else happens: in the event log
    of any sequence of calls, with other calls and reverted calls in
    between, the [DataSubmitted] events carry exactly the ids
    [1, 2, ..., dataCount], in order. *)
Theorem submitted_ids_are_consecutive calls :
  submittedIds (runLog initialStorage calls)
  = indicesFromOne (dataCount (run initialStorage calls)).
Proof. exact (runLog_submittedIds calls initialStorage). Qed.

(** *** The range of Keccak-256 *)

Lemma be_value_bound bs :
  Forall (λ b, b < 256) bs →
  Keccak.be_value bs < 256 ^ N.of_nat (length bs).
Proof.
  unfold Keccak.be_value.
  assert (Hgen : ∀ acc n, acc < 256 ^ n →
            Forall (λ b, b < 256) bs →
            fold_left (λ acc b, acc * 256 + b) bs acc
              < 256 ^ (n + N.of_nat (length bs))).
  { induction bs as [|b bs IH]; intros acc n Hacc Hall; simpl.
    - by rewrite N.add_0_r.
    - apply list.Forall_cons in Hall as [Hb Hall].
      replace (n + N.of_nat (S (length bs)))
        with (N.succ n + N.of_nat (length bs)) by lia.
      apply IH; [|done]. rewrite N.pow_succ_r'. nia. }
  intros Hall. apply (Hgen 0 0); [done|exact Hall].
Qed.

Lemma lane_bytes_bound l : Forall (λ b, b < 256) (Keccak.lane_bytes l).
Proof.
  unfold Keccak.lane_bytes. apply Forall_fmap, Forall_forall.
  intros i _. simpl.
  change 255 with (N.ones 8). rewrite N.land_ones.
  apply N.mod_lt. done.
Qed.

(** X15: A Keccak-256 digest is a [bytes32]: read as a number it is below
    [2 ^ 256], so every fingerprint stored in the request table is a
    [uint256]. *)
Theorem fingerprint_is_uint256 name : fingerprint name ≤ MAX_UINT256.
Proof.
  unfold fingerprint, bytes32ToUint, abi_encodePacked, keccak256,
    Keccak.keccak256, Keccak.sponge.
  destruct (Keccak.absorb _ _ _) as [st pos].
  set (bytes := take 32 _).
  assert (Hbound : Keccak.be_value bytes < 256 ^ N.of_nat (length bytes)).
  { apply be_value_bound. unfold bytes. apply Forall_take.
    apply Forall_bind, Forall_forall. intros l _. apply lane_bytes_bound. }
  assert (Hlen : N.of_nat (length bytes) ≤ 32).
  { unfold bytes. rewrite length_take. lia. }
  assert (Hpow : 256 ^ N.of_nat (length bytes) ≤ 256 ^ 32).
  { by apply N.pow_le_mono_r. }
  assert (Hmax : 256 ^ 32 = MAX_UINT256 + 1) by (vm_compute; reflexivity).
  lia.
Qed.
